(** * User authentication service: model and verified properties

    Shallow embedding of [0x03-user_authentication_service] ([user.py],
    [db.py], [auth.py]) and of [0x00-personal_data/encrypt_password.py].

    The SQLAlchemy session of [DB] is modelled by the rows it sees, the
    statements it sends to the engine are recorded in a journal (the
    engine is created with [echo=True]), and the operating system's
    random source read by [bcrypt.gensalt] and [uuid.uuid4] is a counter
    into two draw functions.  Python exceptions are an explicit outcome
    that keeps the state reached when the exception was raised. *)

From Stdlib Require Import List String ZArith Bool Lia.
From Stdlib.Strings Require Import Byte.
From Stdlib Require Import DecimalString DecimalNat.
Import ListNotations.

Local Open Scope string_scope.
Local Open Scope list_scope.
Local Open Scope Z_scope.

(** ** Data model *)

(** Python [bytes]. *)
Definition bytes := list byte.

(** [str.encode()] / [str.encode('utf-8')]: a Python [str] is kept as the
    string of its UTF-8 code units, so both calls give its bytes. *)
Definition encode (s : string) : bytes := list_byte_of_string s.

(** [user.py]: the mapped columns of [User]. *)
Record User : Type := mkUser {
  id : Z;
  email : string;
  hashed_password : bytes;
  session_id : option string;
  reset_token : option string
}.

(** One [key=value] entry of a [**kwargs] dictionary, with the value typed
    as the column it names.  [kw_other] is a key that is no attribute of
    [User] at all.  A key that names an attribute of the mapped class
    without naming a column ([metadata], [registry], the names that start
    with an underscore) is not modelled: see [foreign]. *)
Inductive kwarg : Type :=
| kw_id (v : Z)
| kw_email (v : string)
| kw_hashed_password (v : bytes)
| kw_session_id (v : option string)
| kw_reset_token (v : option string)
| kw_other (name : string).

Definition kwargs := list kwarg.

(** The exceptions the service raises or lets through. *)
Inductive exn : Type :=
| NoResultFound (msg : string)
| MultipleResultsFound (msg : string)
| InvalidRequestError (msg : string)
| ValueError (msg : string).

(** Exception classes named in [except] clauses. *)
Inductive exn_class : Type :=
| CNoResultFound
| CInvalidRequestError
| CValueError.

(** [isinstance(e, cls)]: in SQLAlchemy both [NoResultFound] and
    [MultipleResultsFound] derive from [InvalidRequestError]. *)
Definition isinstance (e : exn) (c : exn_class) : bool :=
  match c, e with
  | CNoResultFound, NoResultFound _ => true
  | CInvalidRequestError, (NoResultFound _ | MultipleResultsFound _ | InvalidRequestError _) => true
  | CValueError, ValueError _ => true
  | _, _ => false
  end.

(** What the engine is asked to do, in order. *)
Inductive event : Type :=
| Select (criteria : kwargs)
| Commit (snapshot : list User).

Record state : Type := mkState {
  rows : list User;
  journal : list event;
  entropy : nat
}.

(** ** Computations that may raise *)

Inductive outcome (A : Type) : Type :=
| Return (a : A)
| Raise (e : exn).
Arguments Return {A} a.
Arguments Raise {A} e.

Definition M (A : Type) : Type := state -> outcome A * state.

Definition ret {A} (a : A) : M A := fun s => (Return a, s).

Definition raise {A} (e : exn) : M A := fun s => (Raise e, s).

Definition bind {A B} (m : M A) (k : A -> M B) : M B :=
  fun s =>
    match m s with
    | (Return a, s') => k a s'
    | (Raise e, s') => (Raise e, s')
    end.

Notation "x <- m ;; k" := (bind m (fun x => k))
  (at level 61, m at next level, right associativity).
Notation "m ;;; k" := (bind m (fun _ => k))
  (at level 61, right associativity).

(** [try: body except C1: h1 except C2: h2]: the first clause whose class
    the exception is an instance of handles it. *)
Definition try_except {A} (body : M A) (handlers : list (exn_class * M A)) : M A :=
  fun s =>
    match body s with
    | (Return a, s') => (Return a, s')
    | (Raise e, s') =>
        match find (fun h => isinstance e (fst h)) handlers with
        | Some h => snd h s'
        | None => (Raise e, s')
        end
    end.

Definition log (ev : event) : M unit :=
  fun s => (Return tt, mkState (rows s) (journal s ++ [ev]) (entropy s)).

Definition set_rows (l : list User) : M unit :=
  fun s => (Return tt, mkState l (journal s) (entropy s)).

Definition get_rows : M (list User) := fun s => (Return (rows s), s).

(** One read of the random source: the value drawn is the [entropy]-th. *)
Definition draw {A} (gen : nat -> A) : M A :=
  fun s => (Return (gen (entropy s)), mkState (rows s) (journal s) (S (entropy s))).

(** ** db.py *)

Definition option_eqb (a b : option string) : bool :=
  match a, b with
  | Some x, Some y => String.eqb x y
  | None, None => true
  | _, _ => false
  end.

Fixpoint bytes_eqb (a b : bytes) : bool :=
  match a, b with
  | [], [] => true
  | x :: a', y :: b' => Byte.eqb x y && bytes_eqb a' b'
  | _, _ => false
  end.

(** [hasattr(user, key)] for the keys modelled: the five columns, and
    the keys that are no attribute at all. *)
Definition hasattr (k : kwarg) : bool :=
  match k with
  | kw_other _ => false
  | _ => true
  end.

Definition key_name (k : kwarg) : string :=
  match k with
  | kw_id _ => "id"
  | kw_email _ => "email"
  | kw_hashed_password _ => "hashed_password"
  | kw_session_id _ => "session_id"
  | kw_reset_token _ => "reset_token"
  | kw_other name => name
  end.

(** The SQL condition of one [filter_by] entry: [column = value], and
    [column IS NULL] for [None]. *)
Definition holds (u : User) (k : kwarg) : bool :=
  match k with
  | kw_id v => id u =? v
  | kw_email v => String.eqb (email u) v
  | kw_hashed_password v => bytes_eqb (hashed_password u) v
  | kw_session_id v => option_eqb (session_id u) v
  | kw_reset_token v => option_eqb (reset_token u) v
  | kw_other _ => false
  end.

Definition matches (kw : kwargs) (u : User) : bool := forallb (holds u) kw.

(** The rows [filter_by] selects. *)
Definition select (kw : kwargs) (l : list User) : list User := filter (matches kw) l.

(** [self._session.query(User).filter_by(..).one()]: [filter_by]
    rejects a key that is no property of the entity before any statement
    is sent; [one()] wants exactly one row.  An [id] criterion is taken
    to be an SQLite integer ([int64]): outside that range the driver
    raises [OverflowError] when it binds the value. *)
Definition query_one (kw : kwargs) : M User :=
  if forallb hasattr kw then
    log (Select kw) ;;;
    l <- get_rows ;;
    match select kw l with
    | [] => raise (NoResultFound "No row was found when one was required")
    | [u] => ret u
    | _ :: _ :: _ =>
        raise (MultipleResultsFound "Multiple rows were found when exactly one was required")
    end
  else raise (InvalidRequestError "Entity namespace for users has no property").

(** [DB.find_user_by] *)
Definition find_user_by (kw : kwargs) : M User :=
  try_except (query_one kw)
    [ (CNoResultFound, raise (NoResultFound "No user found for the given parameters."));
      (CInvalidRequestError, raise (InvalidRequestError "Invalid query arguments provided.")) ].

(** [self._session.commit()] *)
Definition commit : M unit :=
  l <- get_rows ;; log (Commit l).

(** The key SQLite gives a new row of an [INTEGER PRIMARY KEY] table: one
    more than the largest key in use, 1 in an empty table.  Exact on the
    tables of [room_for_next_id]: SQLite goes on from a negative largest
    key with that key plus one, and picks an unused key at random once
    the largest is [2^63 - 1]. *)
Definition next_id (l : list User) : Z := 1 + fold_right (fun u m => Z.max (id u) m) 0 l.

(** [DB.add_user] *)
Definition add_user (email0 : string) (hashed : bytes) : M User :=
  l <- get_rows ;;
  let user := mkUser (next_id l) email0 hashed None None in
  set_rows (l ++ [user]) ;;;
  commit ;;;
  ret user.

(** [setattr(user, key, value)] *)
Definition setattr (u : User) (k : kwarg) : User :=
  match k with
  | kw_id v => mkUser v (email u) (hashed_password u) (session_id u) (reset_token u)
  | kw_email v => mkUser (id u) v (hashed_password u) (session_id u) (reset_token u)
  | kw_hashed_password v => mkUser (id u) (email u) v (session_id u) (reset_token u)
  | kw_session_id v => mkUser (id u) (email u) (hashed_password u) v (reset_token u)
  | kw_reset_token v => mkUser (id u) (email u) (hashed_password u) (session_id u) v
  | kw_other _ => u
  end.

(** The [for key, value in kwargs.items()] loop of [DB.update_user], run on
    the object [u]: the object after the loop, and whether the loop
    raised. *)
Fixpoint setattr_loop (u : User) (kw : kwargs) : outcome unit * User :=
  match kw with
  | [] => (Return tt, u)
  | k :: kw' =>
      if negb (hasattr k) then
        (Raise (ValueError ("'" ++ key_name k ++ "' is not a valid attribute of User.")), u)
      else setattr_loop (setattr u k) kw'
  end.

(** The object returned by the query is the session's own object for that
    row: assigning to it changes the row the session sees. *)
Definition store (key : Z) (u' : User) (l : list User) : list User :=
  map (fun r => if id r =? key then u' else r) l.

(** [DB.update_user].  The constraint check the engine makes at the
    commit is not modelled: it can fail only when the [id] column itself
    is assigned, which the service never does. *)
Definition update_user (user_id : Z) (kw : kwargs) : M unit :=
  user <- find_user_by [kw_id user_id] ;;
  l <- get_rows ;;
  let (r, user') := setattr_loop user kw in
  set_rows (store user_id user' l) ;;;
  match r with
  | Raise e => raise e
  | Return _ => commit
  end.

(** [DB.__init__]: every table is dropped and created again, so the
    session starts on an empty [users] table.  [seed] is where the random
    source stands. *)
Definition DB_init (seed : nat) : state := mkState [] [] seed.

(** An object of a class that defines neither [__bool__] nor [__len__] is
    true in a condition. *)
Definition truthy (u : User) : bool := true.

(** ** A stand-in for the bcrypt and uuid libraries

    Used only to run the model on concrete inputs: a salt of two bytes, a
    hash that is the salt followed by the password, and the check bcrypt
    documents (hash the candidate with the salt of the stored hash and
    compare). *)

Definition demo_gensalt (n : nat) : bytes :=
  match Byte.of_nat (Nat.modulo n 256) with
  | Some b => [b; x24]
  | None => [x00; x24]
  end.

Definition demo_hashpw (password salt : bytes) : bytes := firstn 2 salt ++ password.

Definition demo_checkpw (password hashed : bytes) : bool :=
  bytes_eqb (demo_hashpw password hashed) hashed.

Definition demo_uuid4 (n : nat) : string :=
  ("uuid-" ++ NilEmpty.string_of_uint (Nat.to_uint n))%string.

Section Service.

(** [bcrypt.hashpw], [bcrypt.checkpw], and the values [bcrypt.gensalt()]
    and [str(uuid.uuid4())] give at each read of the random source.  Both
    libraries are outside the repository; [hashpw] and [checkpw] are
    taken as total on bytes, so the errors of bcrypt itself (a stored
    hash that is no bcrypt hash, a password the installed version
    refuses) are outside the model. *)
Variable hashpw : bytes -> bytes -> bytes.
Variable checkpw : bytes -> bytes -> bool.
Variable gensalt : nat -> bytes.
Variable uuid4 : nat -> string.

(** ** encrypt_password.py *)

Definition hash_password (password : string) : M bytes :=
  salt <- draw gensalt ;;
  let hashed_password := hashpw (encode password) salt in
  ret hashed_password.

Definition is_valid (hashed_password : bytes) (password : string) : bool :=
  checkpw (encode password) hashed_password.

(** ** auth.py *)

Definition _hash_password (password : string) : M bytes :=
  salt <- draw gensalt ;;
  ret (hashpw (encode password) salt).

Definition _generate_uuid : M string := draw uuid4.

(** [Auth.register_user] *)
Definition register_user (email0 password : string) : M User :=
  try_except
    (find_user_by [kw_email email0] ;;;
     raise (ValueError ("User " ++ email0 ++ " already exists")))
    [ (CNoResultFound,
       hashed_password <- _hash_password password ;;
       add_user email0 hashed_password) ].

(** [Auth.valid_login] *)
Definition valid_login (email0 password : string) : M bool :=
  try_except
    (user <- find_user_by [kw_email email0] ;;
     ret (checkpw (encode password) (hashed_password user)))
    [ (CNoResultFound, ret false) ].

(** [Auth.create_session]; [None] is the Python [None]. *)
Definition create_session (email0 : string) : M (option string) :=
  user <- find_user_by [kw_email email0] ;;
  if truthy user then
    session_id0 <- _generate_uuid ;;
    update_user (id user) [kw_session_id (Some session_id0)] ;;;
    ret (Some session_id0)
  else ret None.

(** [Auth.get_user_from_session_id] *)
Definition get_user_from_session_id (session_id0 : option string) : M (option User) :=
  match session_id0 with
  | None => ret None
  | Some _ =>
      try_except
        (user <- find_user_by [kw_session_id session_id0] ;; ret (Some user))
        [ (CNoResultFound, ret None) ]
  end.

(** [Auth.destroy_session] *)
Definition destroy_session (user_id : Z) : M unit :=
  update_user user_id [kw_session_id None].

(** [Auth.get_reset_password_token] *)
Definition get_reset_password_token (email0 : string) : M string :=
  try_except
    (user <- find_user_by [kw_email email0] ;;
     reset_token0 <- _generate_uuid ;;
     update_user (id user) [kw_reset_token (Some reset_token0)] ;;;
     ret reset_token0)
    [ (CNoResultFound, raise (ValueError "User not found")) ].

(** [Auth.update_password] *)
Definition update_password (reset_token0 password : string) : M unit :=
  try_except
    (user <- find_user_by [kw_reset_token (Some reset_token0)] ;;
     hashed_password <- _hash_password password ;;
     update_user (id user) [kw_hashed_password hashed_password; kw_reset_token None])
    [ (CNoResultFound, raise (ValueError "Invalid reset token")) ].

(** ** Properties of repository states *)

(** [id] is the primary key of [users] ([user.py]). *)
Definition primary_key (l : list User) : Prop := NoDup (map id l).

(** No two records share an email.  The schema does not ask for it. *)
Definition unique_email (l : list User) : Prop := NoDup (map email l).

Definition consistent (s : state) : Prop :=
  primary_key (rows s) /\ unique_email (rows s).

(** No record holds [t] as its session id / as its reset token. *)
Definition session_fresh (t : string) (l : list User) : Prop :=
  forall r, In r l -> session_id r <> Some t.

Definition reset_fresh (t : string) (l : list User) : Prop :=
  forall r, In r l -> reset_token r <> Some t.

(** The state after one more statement went to the engine. *)
Definition logged (evs : list event) (s : state) : state :=
  mkState (rows s) (journal s ++ evs) (entropy s).

(** The states a service object can be in: it starts on the empty table
    its own [DB()] creates and changes only through its methods. *)
Inductive reachable : state -> Prop :=
| reach_init seed : reachable (DB_init seed)
| reach_register_user s e p :
    reachable s -> reachable (snd (register_user e p s))
| reach_valid_login s e p :
    reachable s -> reachable (snd (valid_login e p s))
| reach_create_session s e :
    reachable s -> reachable (snd (create_session e s))
| reach_get_user_from_session_id s sid :
    reachable s -> reachable (snd (get_user_from_session_id sid s))
| reach_destroy_session s uid :
    reachable s -> reachable (snd (destroy_session uid s))
| reach_get_reset_password_token s e :
    reachable s -> reachable (snd (get_reset_password_token e s))
| reach_update_password s t p :
    reachable s -> reachable (snd (update_password t p s)).

End Service.

(** ** Concrete states for running the model *)

(** A service with one registered user. *)
Definition demo_registered : state :=
  snd (register_user demo_hashpw demo_gensalt "bob@x.com" "pw" (DB_init 0)).

Definition demo_user : User :=
  mkUser 1 "bob@x.com" (demo_hashpw (encode "pw") (demo_gensalt 0)) None None.

(** That user with a reset token issued. *)
Definition demo_pending : state :=
  snd (get_reset_password_token demo_uuid4 "bob@x.com" demo_registered).

Definition demo_pending_user : User :=
  mkUser 1 "bob@x.com" (demo_hashpw (encode "pw") (demo_gensalt 0)) None (Some "uuid-1").

(** That user with a reset token issued and a session open. *)
Definition demo_active : state :=
  snd (create_session demo_uuid4 "bob@x.com" demo_pending).

Definition demo_active_user : User :=
  mkUser 1 "bob@x.com" (demo_hashpw (encode "pw") (demo_gensalt 0))
         (Some "uuid-2") (Some "uuid-1").

(** A table in which two records carry the same email and the same
    session id, built with [DB.add_user] and [DB.update_user], which do
    not check for either. *)
Definition demo_duplicates : state :=
  snd ((add_user "bob@x.com" [] ;;;
        add_user "bob@x.com" [] ;;;
        update_user 1 [kw_session_id (Some "s")] ;;;
        update_user 2 [kw_session_id (Some "s")]) (DB_init 0)).

(** A table in which a record has the empty string as session id. *)
Definition demo_blank_session : state :=
  snd ((add_user "bob@x.com" [] ;;; update_user 1 [kw_session_id (Some "")]) (DB_init 0)).

(** The password-reset scenario as the specification words it, about one
    run: the token is issued, the update with it succeeds, the new
    password logs in, the old one does not, and the token cannot be used
    again. *)
Definition reset_flow
    (hashpw : bytes -> bytes -> bytes) (checkpw : bytes -> bytes -> bool)
    (gensalt : nat -> bytes) (uuid4 : nat -> string)
    (s : state) (e oldPw newPw anotherPw : string) : Prop :=
  exists t,
    let r1 := get_reset_password_token uuid4 e s in
    let r2 := update_password hashpw gensalt t newPw (snd r1) in
    let r3 := valid_login checkpw e newPw (snd r2) in
    let r4 := valid_login checkpw e oldPw (snd r3) in
    let r5 := update_password hashpw gensalt t anotherPw (snd r4) in
    fst r1 = Return t /\
    fst r2 = Return tt /\
    fst r3 = Return true /\
    fst r4 = Return false /\
    fst r5 = Raise (ValueError "Invalid reset token").

(** A computation that changes neither the ids nor the emails on file. *)
Definition keeps_keys {A} (m : M A) : Prop :=
  forall s, map id (rows (snd (m s))) = map id (rows s)
            /\ map email (rows (snd (m s))) = map email (rows s).

(** The keys of [update_user] that touch neither [id] nor [email]. *)
Definition plain (k : kwarg) : bool :=
  match k with
  | kw_id _ | kw_email _ => false
  | _ => true
  end.

(** ** Where the tokens on file come from *)

(** [o] is no token, or one of the first [e] values of the generator. *)
Definition drawn (uuid4 : nat -> string) (e : nat) (o : option string) : Prop :=
  forall t, o = Some t -> exists i, (i < e)%nat /\ t = uuid4 i.

(** Every session id and reset token on file was generated earlier. *)
Definition tokens_drawn (uuid4 : nat -> string) (s : state) : Prop :=
  forall r, In r (rows s) ->
    drawn uuid4 (entropy s) (session_id r) /\ drawn uuid4 (entropy s) (reset_token r).

Definition kwarg_drawn (uuid4 : nat -> string) (n : nat) (k : kwarg) : Prop :=
  match k with
  | kw_session_id o | kw_reset_token o => drawn uuid4 n o
  | _ => True
  end.

(** A computation that, run after [n] draws, leaves only generated
    tokens on file and does not rewind the random source. *)
Definition sound (uuid4 : nat -> string) (n : nat) {A} (m : M A) : Prop :=
  forall s, (n <= entropy s)%nat -> tokens_drawn uuid4 s ->
    (n <= entropy (snd (m s)))%nat /\ tokens_drawn uuid4 (snd (m s)).

(** A token is held by the records of one id at most, for the column [f]
    ([session_id] or [reset_token]). *)
Definition distinct_tokens (f : User -> option string) (l : list User) : Prop :=
  forall r1 r2 t, In r1 l -> In r2 l -> f r1 = Some t -> f r2 = Some t -> id r1 = id r2.

(** The ids [1], [2], ..., [n]. *)
Definition first_ids (n : nat) : list Z := map Z.of_nat (seq 1 n).

(** The tokens on file were generated earlier and none is shared. *)
Definition tidy (uuid4 : nat -> string) (s : state) : Prop :=
  tokens_drawn uuid4 s
  /\ distinct_tokens session_id (rows s)
  /\ distinct_tokens reset_token (rows s).

Definition keeps_tidy (uuid4 : nat -> string) (n : nat) {A} (m : M A) : Prop :=
  forall s, (n <= entropy s)%nat -> tidy uuid4 s ->
    (n <= entropy (snd (m s)))%nat /\ tidy uuid4 (snd (m s)).

(** One column of the record written back: kept, cleared, or set to a
    token generated from draw [b] on. *)
Definition column_ok (uuid4 : nat -> string) (f : User -> option string)
    (b e : nat) (u u' : User) : Prop :=
  f u' = f u \/ f u' = None
  \/ exists i, f u' = Some (uuid4 i) /\ (b <= i < e)%nat.

(** A computation that leaves the column(s) [f] of every record as they
    were, and a key whose assignment does. *)
Definition keeps {K} (f : User -> K) {A} (m : M A) : Prop :=
  forall s, map f (rows (snd (m s))) = map f (rows s).

Definition untouched {K} (f : User -> K) (k : kwarg) : Prop :=
  forall u, f (setattr u k) = f u.

(** ** Where the model of the repository is exact *)

(** The integers SQLite stores. *)
Definition int64 (k : Z) : Prop := - 2 ^ 63 <= k < 2 ^ 63.

(** Tables on which the next key is one more than the largest: no
    negative key, and the largest key is not the last one. *)
Definition room_for_next_id (l : list User) : Prop :=
  forall r, In r l -> 0 <= id r < 2 ^ 63 - 1.

(** The public attributes of the mapped class: its columns and what the
    declarative base adds. *)
Definition attribute_names : list string :=
  ["id"; "email"; "hashed_password"; "session_id"; "reset_token";
   "metadata"; "registry"].

(** A name that is surely no attribute of [User]: none of the public
    ones, and not a private or special name. *)
Definition foreign (name : string) : bool :=
  negb (existsb (String.eqb name) attribute_names) && negb (String.prefix "_" name).


Create HintDb keys.

Section Properties.

Variable hashpw : bytes -> bytes -> bytes.
Variable checkpw : bytes -> bytes -> bool.
Variable gensalt : nat -> bytes.
Variable uuid4 : nat -> string.

(** ** Selecting rows *)

Lemma filter_nil_iff {A} (p : A -> bool) (l : list A) :
  (forall r, In r l -> p r = false) -> filter p l = [].
Proof.
  induction l as [|a l IH]; intros H; simpl; [reflexivity|].
  rewrite (H a (or_introl eq_refl)).
  apply IH. intros r Hr. apply H. now right.
Qed.

Lemma filter_single {K} (f : User -> K) (p : User -> bool) (l : list User) (u : User) :
  NoDup (map f l) -> In u l -> p u = true ->
  (forall r, In r l -> p r = true -> f r = f u) ->
  filter p l = [u].
Proof.
  induction l as [|a l IH]; intros Hnd Hin Hp Hkey; [contradiction|].
  simpl in Hnd. inversion Hnd as [|x xs Hnotin Hnd']; subst.
  assert (Hfresh : forall r, In r l -> f r <> f a).
  { intros r Hr Heq. apply Hnotin. rewrite <- Heq. now apply in_map. }
  simpl. destruct (p a) eqn:Hpa.
  - assert (Hau : a = u).
    { destruct Hin as [->|Hin]; [reflexivity|].
      exfalso. apply (Hfresh u Hin). symmetry. apply Hkey; [now left|exact Hpa]. }
    subst a. f_equal. apply filter_nil_iff.
    intros r Hr. destruct (p r) eqn:Hpr; [|reflexivity].
    exfalso. apply (Hfresh r Hr). apply Hkey; [now right|exact Hpr].
  - destruct Hin as [->|Hin]; [congruence|].
    apply IH; auto. intros r Hr. apply Hkey. now right.
Qed.

Lemma matches_id v r : matches [kw_id v] r = (id r =? v).
Proof. unfold matches; simpl. now rewrite andb_true_r. Qed.

Lemma matches_email v r : matches [kw_email v] r = String.eqb (email r) v.
Proof. unfold matches; simpl. now rewrite andb_true_r. Qed.

Lemma matches_session_id v r : matches [kw_session_id v] r = option_eqb (session_id r) v.
Proof. unfold matches; simpl. now rewrite andb_true_r. Qed.

Lemma matches_reset_token v r : matches [kw_reset_token v] r = option_eqb (reset_token r) v.
Proof. unfold matches; simpl. now rewrite andb_true_r. Qed.

Lemma option_eqb_eq a b : option_eqb a b = true <-> a = b.
Proof.
  destruct a as [x|], b as [y|]; simpl; try (split; congruence).
  rewrite String.eqb_eq. split; congruence.
Qed.

Lemma option_eqb_refl a : option_eqb a a = true.
Proof. now apply option_eqb_eq. Qed.

Lemma select_id l u :
  primary_key l -> In u l -> select [kw_id (id u)] l = [u].
Proof.
  intros Hpk Hin. unfold select. apply (filter_single id); auto.
  - rewrite matches_id. apply Z.eqb_refl.
  - intros r _. rewrite matches_id. apply Z.eqb_eq.
Qed.

Lemma select_id_none l k :
  (forall r, In r l -> id r <> k) -> select [kw_id k] l = [].
Proof.
  intros H. apply filter_nil_iff. intros r Hr. rewrite matches_id.
  apply Z.eqb_neq. now apply H.
Qed.

Lemma select_email l u :
  unique_email l -> In u l -> select [kw_email (email u)] l = [u].
Proof.
  intros Hue Hin. unfold select. apply (filter_single email); auto.
  - rewrite matches_email. apply String.eqb_refl.
  - intros r _. rewrite matches_email. apply String.eqb_eq.
Qed.

Lemma select_email_none l e :
  (forall r, In r l -> email r <> e) -> select [kw_email e] l = [].
Proof.
  intros H. apply filter_nil_iff. intros r Hr. rewrite matches_email.
  apply String.eqb_neq. now apply H.
Qed.

Lemma select_session_id l u t :
  primary_key l -> In u l -> session_id u = Some t ->
  (forall r, In r l -> session_id r = Some t -> id r = id u) ->
  select [kw_session_id (Some t)] l = [u].
Proof.
  intros Hpk Hin Hu Hothers. unfold select. apply (filter_single id); auto.
  - rewrite matches_session_id, Hu. apply option_eqb_refl.
  - intros r Hr. rewrite matches_session_id, option_eqb_eq. now apply Hothers.
Qed.

Lemma select_session_id_none l t :
  session_fresh t l -> select [kw_session_id (Some t)] l = [].
Proof.
  intros H. apply filter_nil_iff. intros r Hr. rewrite matches_session_id.
  destruct (option_eqb (session_id r) (Some t)) eqn:E; [|reflexivity].
  apply option_eqb_eq in E. now apply H in Hr.
Qed.

Lemma select_reset_token l u t :
  primary_key l -> In u l -> reset_token u = Some t ->
  (forall r, In r l -> reset_token r = Some t -> id r = id u) ->
  select [kw_reset_token (Some t)] l = [u].
Proof.
  intros Hpk Hin Hu Hothers. unfold select. apply (filter_single id); auto.
  - rewrite matches_reset_token, Hu. apply option_eqb_refl.
  - intros r Hr. rewrite matches_reset_token, option_eqb_eq. now apply Hothers.
Qed.

Lemma select_reset_token_none l t :
  reset_fresh t l -> select [kw_reset_token (Some t)] l = [].
Proof.
  intros H. apply filter_nil_iff. intros r Hr. rewrite matches_reset_token.
  destruct (option_eqb (reset_token r) (Some t)) eqn:E; [|reflexivity].
  apply option_eqb_eq in E. now apply H in Hr.
Qed.

(** ** The repository operations on a given table *)

Lemma find_user_by_none kw s :
  forallb hasattr kw = true -> select kw (rows s) = [] ->
  find_user_by kw s =
  (Raise (NoResultFound "No user found for the given parameters."), logged [Select kw] s).
Proof.
  intros Hkw Hsel. unfold find_user_by, try_except, query_one.
  rewrite Hkw. unfold bind, log, get_rows. simpl. now rewrite Hsel.
Qed.

Lemma find_user_by_one kw s u :
  forallb hasattr kw = true -> select kw (rows s) = [u] ->
  find_user_by kw s = (Return u, logged [Select kw] s).
Proof.
  intros Hkw Hsel. unfold find_user_by, try_except, query_one.
  rewrite Hkw. unfold bind, log, get_rows. simpl. now rewrite Hsel.
Qed.

Lemma find_user_by_many kw s :
  (2 <= List.length (select kw (rows s)))%nat ->
  find_user_by kw s =
  (Raise (InvalidRequestError "Invalid query arguments provided."),
   if forallb hasattr kw then logged [Select kw] s else s).
Proof.
  intros Hlen. unfold find_user_by, try_except, query_one.
  destruct (forallb hasattr kw); [|reflexivity].
  unfold bind, log, get_rows. simpl.
  destruct (select kw (rows s)) as [|u1 [|u2 l]]; simpl in Hlen; try lia.
  reflexivity.
Qed.

Lemma setattr_loop_ok u kw :
  forallb hasattr kw = true ->
  setattr_loop u kw = (Return tt, fold_left setattr kw u).
Proof.
  revert u. induction kw as [|k kw IH]; intros u H; simpl in *; [reflexivity|].
  apply andb_true_iff in H as [Hk Hkw]. rewrite Hk. simpl. now apply IH.
Qed.

Lemma update_user_found s u kw :
  primary_key (rows s) -> In u (rows s) -> forallb hasattr kw = true ->
  let rows' := store (id u) (fold_left setattr kw u) (rows s) in
  update_user (id u) kw s =
  (Return tt,
   mkState rows' (journal s ++ [Select [kw_id (id u)]] ++ [Commit rows']) (entropy s)).
Proof.
  intros Hpk Hin Hkw rows'. unfold update_user, bind.
  rewrite (find_user_by_one [kw_id (id u)] s u) by (auto using select_id).
  unfold get_rows. simpl. rewrite (setattr_loop_ok u kw Hkw).
  unfold set_rows, commit, bind, get_rows, log. simpl.
  now rewrite <- app_assoc.
Qed.

Lemma update_user_missing s k kw :
  (forall r, In r (rows s) -> id r <> k) ->
  update_user k kw s =
  (Raise (NoResultFound "No user found for the given parameters."),
   logged [Select [kw_id k]] s).
Proof.
  intros H. unfold update_user, bind.
  now rewrite (find_user_by_none [kw_id k] s) by (auto using select_id_none).
Qed.

(** ** Writing one record back *)

Lemma store_map {K} (f : User -> K) k u' l :
  (forall r, In r l -> id r = k -> f u' = f r) ->
  map f (store k u' l) = map f l.
Proof.
  induction l as [|a l IH]; intros H; simpl; [reflexivity|].
  rewrite IH by (intros r Hr; apply H; now right).
  destruct (id a =? k) eqn:E; [|reflexivity].
  apply Z.eqb_eq in E. now rewrite (H a (or_introl eq_refl) E).
Qed.

Lemma in_store k u' l r' :
  In r' (store k u' l) ->
  (r' = u' /\ exists r, In r l /\ id r = k) \/ (In r' l /\ id r' <> k).
Proof.
  unfold store. rewrite in_map_iff. intros [r [Hr Hin]].
  destruct (id r =? k) eqn:E.
  - left. apply Z.eqb_eq in E. split; [now symmetry|now exists r].
  - right. apply Z.eqb_neq in E. subst r'. now split.
Qed.

Lemma store_in k u' l r :
  In r l -> id r = k -> In u' (store k u' l).
Proof.
  intros Hin Hk. unfold store. apply in_map_iff. exists r. split; [|exact Hin].
  now rewrite Hk, Z.eqb_refl.
Qed.

Lemma store_primary_key u u' l :
  primary_key l -> In u l -> id u' = id u -> primary_key (store (id u) u' l).
Proof.
  intros Hpk Hin Hid. unfold primary_key.
  rewrite store_map; [exact Hpk|]. intros r _ Hr. now rewrite Hid, Hr.
Qed.

(** ** The service operations on a given table *)

Lemma valid_login_missing e p s :
  (forall r, In r (rows s) -> email r <> e) ->
  valid_login checkpw e p s = (Return false, logged [Select [kw_email e]] s).
Proof.
  intros H. unfold valid_login, try_except, bind.
  now rewrite (find_user_by_none [kw_email e] s) by (auto using select_email_none).
Qed.

Lemma valid_login_found u p s :
  unique_email (rows s) -> In u (rows s) ->
  valid_login checkpw (email u) p s =
  (Return (checkpw (encode p) (hashed_password u)), logged [Select [kw_email (email u)]] s).
Proof.
  intros Hue Hin. unfold valid_login, try_except, bind.
  now rewrite (find_user_by_one [kw_email (email u)] s u) by (auto using select_email).
Qed.

Lemma register_user_found u p s :
  unique_email (rows s) -> In u (rows s) ->
  register_user hashpw gensalt (email u) p s =
  (Raise (ValueError ("User " ++ email u ++ " already exists")),
   logged [Select [kw_email (email u)]] s).
Proof.
  intros Hue Hin. unfold register_user, try_except, bind.
  now rewrite (find_user_by_one [kw_email (email u)] s u) by (auto using select_email).
Qed.

Lemma register_user_missing e p s :
  (forall r, In r (rows s) -> email r <> e) ->
  let user := mkUser (next_id (rows s)) e (hashpw (encode p) (gensalt (entropy s))) None None in
  register_user hashpw gensalt e p s =
  (Return user,
   mkState (rows s ++ [user])
           (journal s ++ [Select [kw_email e]] ++ [Commit (rows s ++ [user])])
           (S (entropy s))).
Proof.
  intros H user. unfold register_user, try_except, bind.
  rewrite (find_user_by_none [kw_email e] s) by (auto using select_email_none).
  simpl. unfold _hash_password, add_user, commit, bind, draw, get_rows, set_rows, log, ret.
  simpl. now rewrite <- app_assoc.
Qed.

Lemma create_session_missing e s :
  (forall r, In r (rows s) -> email r <> e) ->
  create_session uuid4 e s =
  (Raise (NoResultFound "No user found for the given parameters."),
   logged [Select [kw_email e]] s).
Proof.
  intros H. unfold create_session, bind.
  now rewrite (find_user_by_none [kw_email e] s) by (auto using select_email_none).
Qed.

Lemma create_session_found u s :
  primary_key (rows s) -> unique_email (rows s) -> In u (rows s) ->
  let t := uuid4 (entropy s) in
  let rows' := store (id u) (setattr u (kw_session_id (Some t))) (rows s) in
  create_session uuid4 (email u) s =
  (Return (Some t),
   mkState rows'
           (journal s ++ [Select [kw_email (email u)]] ++ [Select [kw_id (id u)]]
                      ++ [Commit rows'])
           (S (entropy s))).
Proof.
  intros Hpk Hue Hin t rows'. unfold create_session, bind.
  rewrite (find_user_by_one [kw_email (email u)] s u) by (auto using select_email).
  unfold truthy, _generate_uuid, draw. simpl.
  rewrite update_user_found by auto. simpl. now rewrite <- app_assoc.
Qed.

Lemma get_reset_password_token_missing e s :
  (forall r, In r (rows s) -> email r <> e) ->
  get_reset_password_token uuid4 e s =
  (Raise (ValueError "User not found"), logged [Select [kw_email e]] s).
Proof.
  intros H. unfold get_reset_password_token, try_except, bind.
  now rewrite (find_user_by_none [kw_email e] s) by (auto using select_email_none).
Qed.

Lemma get_reset_password_token_found u s :
  primary_key (rows s) -> unique_email (rows s) -> In u (rows s) ->
  let t := uuid4 (entropy s) in
  let rows' := store (id u) (setattr u (kw_reset_token (Some t))) (rows s) in
  get_reset_password_token uuid4 (email u) s =
  (Return t,
   mkState rows'
           (journal s ++ [Select [kw_email (email u)]] ++ [Select [kw_id (id u)]]
                      ++ [Commit rows'])
           (S (entropy s))).
Proof.
  intros Hpk Hue Hin t rows'. unfold get_reset_password_token, try_except, bind.
  rewrite (find_user_by_one [kw_email (email u)] s u) by (auto using select_email).
  unfold _generate_uuid, draw. simpl.
  rewrite update_user_found by auto. simpl. now rewrite <- app_assoc.
Qed.


Lemma get_user_from_session_id_none s :
  get_user_from_session_id None s = (Return None, s).
Proof. reflexivity. Qed.

Lemma get_user_from_session_id_missing t s :
  session_fresh t (rows s) ->
  get_user_from_session_id (Some t) s =
  (Return None, logged [Select [kw_session_id (Some t)]] s).
Proof.
  intros H. unfold get_user_from_session_id, try_except, bind.
  now rewrite (find_user_by_none [kw_session_id (Some t)] s)
    by (auto using select_session_id_none).
Qed.

Lemma get_user_from_session_id_found u t s :
  primary_key (rows s) -> In u (rows s) -> session_id u = Some t ->
  (forall r, In r (rows s) -> session_id r = Some t -> id r = id u) ->
  get_user_from_session_id (Some t) s =
  (Return (Some u), logged [Select [kw_session_id (Some t)]] s).
Proof.
  intros Hpk Hin Hu Hothers. unfold get_user_from_session_id, try_except, bind.
  now rewrite (find_user_by_one [kw_session_id (Some t)] s u)
    by (auto using select_session_id).
Qed.

Lemma destroy_session_found u s :
  primary_key (rows s) -> In u (rows s) ->
  let rows' := store (id u) (setattr u (kw_session_id None)) (rows s) in
  destroy_session (id u) s =
  (Return tt,
   mkState rows' (journal s ++ [Select [kw_id (id u)]] ++ [Commit rows']) (entropy s)).
Proof.
  intros Hpk Hin rows'. unfold destroy_session.
  now rewrite update_user_found by auto.
Qed.

Lemma destroy_session_missing k s :
  (forall r, In r (rows s) -> id r <> k) ->
  destroy_session k s =
  (Raise (NoResultFound "No user found for the given parameters."),
   logged [Select [kw_id k]] s).
Proof. intros H. unfold destroy_session. now apply update_user_missing. Qed.

Lemma update_password_missing t p s :
  reset_fresh t (rows s) ->
  update_password hashpw gensalt t p s =
  (Raise (ValueError "Invalid reset token"), logged [Select [kw_reset_token (Some t)]] s).
Proof.
  intros H. unfold update_password, try_except, bind.
  now rewrite (find_user_by_none [kw_reset_token (Some t)] s)
    by (auto using select_reset_token_none).
Qed.

Lemma update_password_found u t p s :
  primary_key (rows s) -> In u (rows s) -> reset_token u = Some t ->
  (forall r, In r (rows s) -> reset_token r = Some t -> id r = id u) ->
  let h := hashpw (encode p) (gensalt (entropy s)) in
  let u' := setattr (setattr u (kw_hashed_password h)) (kw_reset_token None) in
  let rows' := store (id u) u' (rows s) in
  update_password hashpw gensalt t p s =
  (Return tt,
   mkState rows'
           (journal s ++ [Select [kw_reset_token (Some t)]] ++ [Select [kw_id (id u)]]
                      ++ [Commit rows'])
           (S (entropy s))).
Proof.
  intros Hpk Hin Hu Hothers h u' rows'. unfold update_password, try_except, bind.
  rewrite (find_user_by_one [kw_reset_token (Some t)] s u)
    by (auto using select_reset_token).
  unfold _hash_password, bind, draw, ret. simpl.
  rewrite update_user_found by auto. simpl. now rewrite <- app_assoc.
Qed.

(** ** Tables after a record was written back *)

Lemma store_store k u1 u2 l :
  id u1 = k -> store k u2 (store k u1 l) = store k u2 l.
Proof.
  intros Hk. unfold store. rewrite map_map. apply map_ext. intros r.
  destruct (id r =? k) eqn:E; [|now rewrite E].
  now rewrite Hk, Z.eqb_refl.
Qed.

Lemma store_unique_email u u' l :
  primary_key l -> unique_email l -> In u l -> email u' = email u ->
  unique_email (store (id u) u' l).
Proof.
  intros Hpk Hue Hin He. unfold unique_email.
  rewrite store_map; [exact Hue|]. intros r Hr Hid. rewrite He.
  assert (Hsel : In r (select [kw_id (id u)] l)).
  { apply filter_In. split; [exact Hr|]. rewrite matches_id. now apply Z.eqb_eq. }
  rewrite (select_id l u Hpk Hin) in Hsel. destruct Hsel as [->|[]]. reflexivity.
Qed.

Lemma store_session_fresh t k u' l :
  session_fresh t l -> session_id u' <> Some t -> session_fresh t (store k u' l).
Proof.
  intros Hf Hu r Hr. apply in_store in Hr as [[-> _]|[Hr _]]; auto.
Qed.

Lemma store_reset_fresh t k u' l :
  reset_fresh t l -> reset_token u' <> Some t -> reset_fresh t (store k u' l).
Proof.
  intros Hf Hu r Hr. apply in_store in Hr as [[-> _]|[Hr _]]; auto.
Qed.

Lemma store_session_holder t k u' l :
  session_fresh t l ->
  forall r, In r (store k u' l) -> session_id r = Some t -> id r = id u'.
Proof.
  intros Hf r Hr Ht. apply in_store in Hr as [[-> _]|[Hr _]]; [reflexivity|].
  now apply Hf in Hr.
Qed.

Lemma store_reset_holder t k u' l :
  reset_fresh t l ->
  forall r, In r (store k u' l) -> reset_token r = Some t -> id r = id u'.
Proof.
  intros Hf r Hr Ht. apply in_store in Hr as [[-> _]|[Hr _]]; [reflexivity|].
  now apply Hf in Hr.
Qed.


(** ** Registration and login *)

(** C5: [register_user e p] fails with "User e already exists" when a
    record with email [e] is on file, and the table is left as it was;
    when no record has that email it hashes [p] with a fresh salt, adds
    the record (next id, no session id, no reset token) with one commit,
    and returns that record. *)
Theorem register_user_spec (e p : string) (s : state) :
  (forall u, unique_email (rows s) -> In u (rows s) -> email u = e ->
     register_user hashpw gensalt e p s =
     (Raise (ValueError ("User " ++ e ++ " already exists")),
      logged [Select [kw_email e]] s))
  /\
  ((forall r, In r (rows s) -> email r <> e) ->
     let user := mkUser (next_id (rows s)) e
                        (hashpw (encode p) (gensalt (entropy s))) None None in
     register_user hashpw gensalt e p s =
     (Return user,
      mkState (rows s ++ [user])
              (journal s ++ [Select [kw_email e]] ++ [Commit (rows s ++ [user])])
              (S (entropy s)))).
Proof.
  split.
  - intros u Hue Hin <-. now apply register_user_found.
  - intros Hmiss. now apply register_user_missing.
Qed.

(** C7: [valid_login e p] returns [False], without raising, when no
    record has email [e]; when a record has it, the result is exactly
    [bcrypt.checkpw] of the encoded password against the stored hash. *)
Theorem valid_login_spec (e p : string) (s : state) :
  ((forall r, In r (rows s) -> email r <> e) ->
     valid_login checkpw e p s = (Return false, logged [Select [kw_email e]] s))
  /\
  (forall u, unique_email (rows s) -> In u (rows s) -> email u = e ->
     valid_login checkpw e p s =
     (Return (checkpw (encode p) (hashed_password u)), logged [Select [kw_email e]] s)).
Proof.
  split.
  - apply valid_login_missing.
  - intros u Hue Hin <-. now apply valid_login_found.
Qed.

(** ** Sessions *)

(** C1: for an email no record has, [create_session] does not return
    [None]: the [NoResultFound] raised by [find_user_by] leaves the
    method. *)
Theorem create_session_unknown_email_raises (e : string) (s : state) :
  (forall r, In r (rows s) -> email r <> e) ->
  fst (create_session uuid4 e s) =
  Raise (NoResultFound "No user found for the given parameters.").
Proof. intros H. now rewrite create_session_missing. Qed.

(** C8: [get_reset_password_token e] fails with "User not found" when no
    record has email [e]; when a record has it, a token is drawn, stored
    as that record's reset token with one commit, and returned. *)
Theorem get_reset_password_token_spec (e : string) (s : state) :
  ((forall r, In r (rows s) -> email r <> e) ->
     get_reset_password_token uuid4 e s =
     (Raise (ValueError "User not found"), logged [Select [kw_email e]] s))
  /\
  (forall u, primary_key (rows s) -> unique_email (rows s) ->
     In u (rows s) -> email u = e ->
     let t := uuid4 (entropy s) in
     let u' := setattr u (kw_reset_token (Some t)) in
     let rows' := store (id u) u' (rows s) in
     get_reset_password_token uuid4 e s =
     (Return t,
      mkState rows'
              (journal s ++ [Select [kw_email e]] ++ [Select [kw_id (id u)]]
                         ++ [Commit rows'])
              (S (entropy s)))
     /\ In u' rows' /\ reset_token u' = Some t).
Proof.
  split.
  - apply get_reset_password_token_missing.
  - intros u Hpk Hue Hin <- t u' rows'. split; [|split].
    + now apply get_reset_password_token_found.
    + now apply (store_in (id u) u' (rows s) u).
    + reflexivity.
Qed.

(** C2: [update_password t p] fails with "Invalid reset token" and leaves
    the table as it was when no record holds [t]; when one record holds
    it, the new hash and the cleared reset token are written to that
    record and committed together: the journal gains one commit, whose
    snapshot already has both changes. *)
Theorem update_password_spec (t p : string) (s : state) :
  (reset_fresh t (rows s) ->
     update_password hashpw gensalt t p s =
     (Raise (ValueError "Invalid reset token"),
      logged [Select [kw_reset_token (Some t)]] s))
  /\
  (forall u, primary_key (rows s) -> In u (rows s) -> reset_token u = Some t ->
     (forall r, In r (rows s) -> reset_token r = Some t -> id r = id u) ->
     let h := hashpw (encode p) (gensalt (entropy s)) in
     let u' := mkUser (id u) (email u) h (session_id u) None in
     let rows' := store (id u) u' (rows s) in
     update_password hashpw gensalt t p s =
     (Return tt,
      mkState rows'
              (journal s ++ [Select [kw_reset_token (Some t)]]
                         ++ [Select [kw_id (id u)]] ++ [Commit rows'])
              (S (entropy s)))
     /\ In u' rows' /\ reset_fresh t rows').
Proof.
  split.
  - apply update_password_missing.
  - intros u Hpk Hin Hu Hothers h u' rows'. split; [|split].
    + now apply update_password_found.
    + now apply (store_in (id u) u' (rows s) u).
    + intros r Hr Ht. apply in_store in Hr as [[-> _]|[Hr Hid]].
      * discriminate.
      * apply Hid. now apply Hothers.
Qed.


(** C6: without a session id ([None]) [get_user_from_session_id] returns
    [None] at once and sends nothing to the engine; for every session id
    that is given, the empty string included, it runs the query and
    returns [None] when no record holds that session id. *)
Theorem get_user_from_session_id_spec (s : state) :
  get_user_from_session_id None s = (Return None, s)
  /\
  (forall t, session_fresh t (rows s) ->
     get_user_from_session_id (Some t) s =
     (Return None, logged [Select [kw_session_id (Some t)]] s)).
Proof.
  split.
  - apply get_user_from_session_id_none.
  - intros t. apply get_user_from_session_id_missing.
Qed.

(** C10: when two or more records match the criteria, [find_user_by]
    raises [InvalidRequestError], which is no [NoResultFound]; so
    [valid_login], [create_session] and [get_user_from_session_id] raise
    it too instead of returning [False] or [None]. *)
Theorem duplicates_raise (kw : kwargs) (s : state) :
  (2 <= List.length (select kw (rows s)))%nat ->
  let err := InvalidRequestError "Invalid query arguments provided." in
  fst (find_user_by kw s) = Raise err
  /\ isinstance err CNoResultFound = false
  /\ (forall e p, kw = [kw_email e] -> fst (valid_login checkpw e p s) = Raise err)
  /\ (forall e, kw = [kw_email e] -> fst (create_session uuid4 e s) = Raise err)
  /\ (forall t, kw = [kw_session_id (Some t)] ->
        fst (get_user_from_session_id (Some t) s) = Raise err).
Proof.
  intros Hlen err. pose proof (find_user_by_many kw s Hlen) as Hfind.
  repeat split.
  - now rewrite Hfind.
  - intros e p ->. unfold valid_login, try_except, bind. now rewrite Hfind.
  - intros e ->. unfold create_session, bind. now rewrite Hfind.
  - intros t ->. unfold get_user_from_session_id, try_except, bind. now rewrite Hfind.
Qed.

(** ** Life cycles *)

(** C4: for a registered user, with a token no record holds yet:
    [create_session] returns the token, [get_user_from_session_id] of it
    returns that user (now carrying the token), [destroy_session] of the
    user's id succeeds, and the token then resolves to [None].
    [destroy_session] of an id (an SQLite integer) that no record has
    raises [NoResultFound]. *)
Theorem session_lifecycle (s : state) :
  (forall k, int64 k -> (forall r, In r (rows s) -> id r <> k) ->
     fst (destroy_session k s) =
     Raise (NoResultFound "No user found for the given parameters."))
  /\
  (forall u, primary_key (rows s) -> unique_email (rows s) -> In u (rows s) ->
     session_fresh (uuid4 (entropy s)) (rows s) ->
     let t := uuid4 (entropy s) in
     let r1 := create_session uuid4 (email u) s in
     let r2 := get_user_from_session_id (Some t) (snd r1) in
     let r3 := destroy_session (id u) (snd r2) in
     let r4 := get_user_from_session_id (Some t) (snd r3) in
     fst r1 = Return (Some t)
     /\ fst r2 = Return (Some (mkUser (id u) (email u) (hashed_password u)
                                      (Some t) (reset_token u)))
     /\ fst r3 = Return tt
     /\ fst r4 = Return None).
Proof.
  split.
  - intros k _ Hk. now rewrite destroy_session_missing.
  - intros u Hpk Hue Hin Hfresh t r1 r2 r3 r4.
    set (u1 := mkUser (id u) (email u) (hashed_password u) (Some t) (reset_token u)).
    assert (E1 : r1 = (Return (Some t),
                       mkState (store (id u) u1 (rows s))
                               (journal s ++ [Select [kw_email (email u)]]
                                  ++ [Select [kw_id (id u)]]
                                  ++ [Commit (store (id u) u1 (rows s))])
                               (S (entropy s))))
      by (now apply create_session_found).
    set (s1 := snd r1) in *.
    assert (Hrows1 : rows s1 = store (id u) u1 (rows s)) by (subst s1; now rewrite E1).
    assert (Hpk1 : primary_key (rows s1))
      by (rewrite Hrows1; now apply store_primary_key).
    assert (Hin1 : In u1 (rows s1))
      by (rewrite Hrows1; now apply (store_in (id u) u1 (rows s) u)).
    assert (E2 : r2 = (Return (Some u1), logged [Select [kw_session_id (Some t)]] s1)).
    { apply get_user_from_session_id_found; auto.
      rewrite Hrows1. now apply store_session_holder. }
    set (s2 := snd r2) in *.
    assert (Hrows2 : rows s2 = rows s1) by (subst s2; now rewrite E2).
    assert (E3 : r3 = (Return tt,
                       mkState (store (id u1) (setattr u1 (kw_session_id None)) (rows s2))
                               (journal s2 ++ [Select [kw_id (id u1)]]
                                  ++ [Commit (store (id u1) (setattr u1 (kw_session_id None))
                                                    (rows s2))])
                               (entropy s2))).
    { apply (destroy_session_found u1 s2); now rewrite Hrows2. }
    set (s3 := snd r3) in *.
    assert (Hfresh3 : session_fresh t (rows s3)).
    { subst s3. rewrite E3. simpl. rewrite Hrows2, Hrows1.
      rewrite store_store by reflexivity.
      apply store_session_fresh; [exact Hfresh|discriminate]. }
    repeat split.
    + now rewrite E1.
    + now rewrite E2.
    + now rewrite E3.
    + unfold r4. now rewrite get_user_from_session_id_missing.
Qed.


(** One run of the reset scenario, with what each call returns. *)
Lemma reset_flow_run (u : User) (s : state) (oldPw newPw anotherPw : string) :
  primary_key (rows s) -> unique_email (rows s) -> In u (rows s) ->
  reset_fresh (uuid4 (entropy s)) (rows s) ->
  let t := uuid4 (entropy s) in
  let h := hashpw (encode newPw) (gensalt (S (entropy s))) in
  let r1 := get_reset_password_token uuid4 (email u) s in
  let r2 := update_password hashpw gensalt t newPw (snd r1) in
  let r3 := valid_login checkpw (email u) newPw (snd r2) in
  let r4 := valid_login checkpw (email u) oldPw (snd r3) in
  let r5 := update_password hashpw gensalt t anotherPw (snd r4) in
  fst r1 = Return t
  /\ fst r2 = Return tt
  /\ fst r3 = Return (checkpw (encode newPw) h)
  /\ fst r4 = Return (checkpw (encode oldPw) h)
  /\ fst r5 = Raise (ValueError "Invalid reset token").
Proof.
  intros Hpk Hue Hin Hfresh t h r1 r2 r3 r4 r5.
  set (u1 := setattr u (kw_reset_token (Some t))).
  assert (E1 : r1 = (Return t,
                     mkState (store (id u) u1 (rows s))
                             (journal s ++ [Select [kw_email (email u)]]
                                ++ [Select [kw_id (id u)]]
                                ++ [Commit (store (id u) u1 (rows s))])
                             (S (entropy s))))
    by (now apply get_reset_password_token_found).
  set (s1 := snd r1) in *.
  assert (Hrows1 : rows s1 = store (id u) u1 (rows s)) by (subst s1; now rewrite E1).
  assert (Hent1 : entropy s1 = S (entropy s)) by (subst s1; now rewrite E1).
  assert (Hpk1 : primary_key (rows s1))
    by (rewrite Hrows1; now apply store_primary_key).
  assert (Hin1 : In u1 (rows s1))
    by (rewrite Hrows1; now apply (store_in (id u) u1 (rows s) u)).
  set (u2 := setattr (setattr u1 (kw_hashed_password h)) (kw_reset_token None)).
  assert (E2 : r2 = (Return tt,
                     mkState (store (id u1) u2 (rows s1))
                             (journal s1 ++ [Select [kw_reset_token (Some t)]]
                                ++ [Select [kw_id (id u1)]]
                                ++ [Commit (store (id u1) u2 (rows s1))])
                             (S (entropy s1)))).
  { subst u2 h. rewrite <- Hent1.
    apply (update_password_found u1 t newPw s1); auto.
    rewrite Hrows1. now apply store_reset_holder. }
  set (s2 := snd r2) in *.
  assert (Hrows2 : rows s2 = store (id u) u2 (rows s)).
  { subst s2. rewrite E2. simpl. rewrite Hrows1. now apply store_store. }
  assert (Hue2 : unique_email (rows s2))
    by (rewrite Hrows2; now apply store_unique_email).
  assert (Hin2 : In u2 (rows s2))
    by (rewrite Hrows2; now apply (store_in (id u) u2 (rows s) u)).
  assert (E3 : r3 = (Return (checkpw (encode newPw) h),
                     logged [Select [kw_email (email u2)]] s2))
    by (now apply (valid_login_found u2 newPw s2)).
  set (s3 := snd r3) in *.
  assert (Hrows3 : rows s3 = rows s2) by (subst s3; now rewrite E3).
  assert (E4 : r4 = (Return (checkpw (encode oldPw) h),
                     logged [Select [kw_email (email u2)]] s3)).
  { apply (valid_login_found u2 oldPw s3); now rewrite Hrows3. }
  set (s4 := snd r4) in *.
  assert (Hfresh4 : reset_fresh t (rows s4)).
  { subst s4. rewrite E4. simpl. rewrite Hrows3, Hrows2.
    apply store_reset_fresh; [exact Hfresh|discriminate]. }
  repeat split.
  - now rewrite E1.
  - now rewrite E2.
  - now rewrite E3.
  - now rewrite E4.
  - unfold r5. now rewrite update_password_missing.
Qed.

(** C3: for a registered user, a reset token no record holds yet, and a
    bcrypt that accepts [newPw] against its own hash and rejects [oldPw]
    against the hash of [newPw]: the token is issued, [update_password]
    with it succeeds, [newPw] logs in, [oldPw] does not, and a second
    [update_password] with the same token fails with "Invalid reset
    token". *)
Theorem reset_flow_holds (u : User) (s : state) (oldPw newPw anotherPw : string) :
  primary_key (rows s) -> unique_email (rows s) -> In u (rows s) ->
  reset_fresh (uuid4 (entropy s)) (rows s) ->
  (forall pw n, checkpw pw (hashpw pw (gensalt n)) = true) ->
  (forall n, checkpw (encode oldPw) (hashpw (encode newPw) (gensalt n)) = false) ->
  reset_flow hashpw checkpw gensalt uuid4 s (email u) oldPw newPw anotherPw.
Proof.
  intros Hpk Hue Hin Hfresh Hsame Hother.
  destruct (reset_flow_run u s oldPw newPw anotherPw Hpk Hue Hin Hfresh)
    as (H1 & H2 & H3 & H4 & H5).
  exists (uuid4 (entropy s)). cbv zeta. repeat split; try assumption.
  - rewrite H3. f_equal. apply Hsame.
  - rewrite H4. f_equal. apply Hother.
Qed.

(** Whatever bcrypt is, as long as it accepts a password against its own
    hash: when the new password is the current one, the scenario does
    not end with the old password refused. *)
Lemma reset_flow_needs_new_password (u : User) (s : state) (pw anotherPw : string) :
  primary_key (rows s) -> unique_email (rows s) -> In u (rows s) ->
  reset_fresh (uuid4 (entropy s)) (rows s) ->
  (forall p n, checkpw p (hashpw p (gensalt n)) = true) ->
  ~ reset_flow hashpw checkpw gensalt uuid4 s (email u) pw pw anotherPw.
Proof.
  intros Hpk Hue Hin Hfresh Hsame [t H]. cbv zeta in H.
  destruct H as (Ht & _ & _ & H4 & _).
  destruct (reset_flow_run u s pw pw anotherPw Hpk Hue Hin Hfresh)
    as (H1 & _ & _ & H4' & _).
  rewrite H1 in Ht. injection Ht as <-.
  rewrite H4', Hsame in H4. discriminate.
Qed.

(** ** What the service keeps true of its table *)

(** One goal for each element of a literal list under [Forall]. *)
Ltac split_Forall :=
  repeat match goal with
         | |- Forall _ [] => apply Forall_nil
         | |- Forall _ (_ :: _) => apply Forall_cons; [cbn [snd]|]
         end.

Lemma keeps_keys_ret {A} (a : A) : keeps_keys (ret a).
Proof. now intros s. Qed.

Lemma keeps_keys_raise {A} (e : exn) : keeps_keys (@raise A e).
Proof. now intros s. Qed.

Lemma keeps_keys_log ev : keeps_keys (log ev).
Proof. now intros s. Qed.

Lemma keeps_keys_draw {A} (gen : nat -> A) : keeps_keys (draw gen).
Proof. now intros s. Qed.

Lemma keeps_keys_get_rows : keeps_keys get_rows.
Proof. now intros s. Qed.

Lemma keeps_keys_bind {A B} (m : M A) (k : A -> M B) :
  keeps_keys m -> (forall a, keeps_keys (k a)) -> keeps_keys (bind m k).
Proof.
  intros Hm Hk s. unfold bind. specialize (Hm s).
  destruct (m s) as [[a|e] s']; simpl in *; [|exact Hm].
  destruct (Hk a s') as [H1 H2]. destruct Hm as [H3 H4].
  split; congruence.
Qed.

Lemma keeps_keys_try_except {A} (body : M A) handlers :
  keeps_keys body -> Forall (fun h => keeps_keys (snd h)) handlers ->
  keeps_keys (try_except body handlers).
Proof.
  intros Hb Hh s. unfold try_except. specialize (Hb s).
  destruct (body s) as [[a|e] s']; simpl in *; [exact Hb|].
  destruct (find _ handlers) as [h|] eqn:E; [|exact Hb].
  apply find_some in E as [E _]. rewrite Forall_forall in Hh.
  destruct (Hh h E s') as [H1 H2]. destruct Hb as [H3 H4].
  split; congruence.
Qed.

#[local] Hint Resolve keeps_keys_ret keeps_keys_raise keeps_keys_log keeps_keys_draw
  keeps_keys_get_rows : keys.

Lemma keeps_keys_find_user_by kw : keeps_keys (find_user_by kw).
Proof.
  unfold find_user_by. apply keeps_keys_try_except.
  - unfold query_one. destruct (forallb hasattr kw); auto with keys.
    apply keeps_keys_bind; auto with keys. intros _.
    apply keeps_keys_bind; auto with keys. intros l.
    destruct (select kw l) as [|u1 [|u2 l']]; auto with keys.
  - split_Forall; auto with keys.
Qed.

(** What a finished [find_user_by] says about the table it ran on. *)
Lemma find_user_by_cases kw s :
  rows (snd (find_user_by kw s)) = rows s
  /\ match fst (find_user_by kw s) with
     | Return u => select kw (rows s) = [u]
     | Raise e => isinstance e CNoResultFound = true -> select kw (rows s) = []
     end.
Proof.
  unfold find_user_by, try_except, query_one.
  destruct (forallb hasattr kw); [|simpl; split; [reflexivity|discriminate]].
  unfold bind, log, get_rows. simpl.
  destruct (select kw (rows s)) as [|u1 [|u2 l']]; simpl; split;
    reflexivity || discriminate || auto.
Qed.

Lemma setattr_loop_keys u kw :
  forallb plain kw = true ->
  id (snd (setattr_loop u kw)) = id u /\ email (snd (setattr_loop u kw)) = email u.
Proof.
  revert u. induction kw as [|k kw IH]; intros u H; simpl in *; [now split|].
  apply andb_true_iff in H as [Hk Hkw].
  destruct (negb (hasattr k)); [now split|].
  destruct (IH (setattr u k) Hkw) as [H1 H2]. rewrite H1, H2.
  destruct k; simpl in *; try discriminate; now split.
Qed.

Lemma keeps_keys_update_user k kw :
  forallb plain kw = true -> keeps_keys (update_user k kw).
Proof.
  intros Hkw s. unfold update_user, bind.
  destruct (find_user_by_cases [kw_id k] s) as [Hrows Hcase].
  destruct (find_user_by [kw_id k] s) as [[u|e] s'] eqn:E; simpl in *;
    [|now rewrite Hrows].
  unfold get_rows.
  destruct (setattr_loop_keys u kw Hkw) as [Hid He].
  destruct (setattr_loop u kw) as [r u']. simpl in Hid, He.
  assert (Hsel : forall r0, In r0 (rows s) -> id r0 = k -> r0 = u).
  { intros r0 Hr0 Hk.
    assert (Hx : In r0 (select [kw_id k] (rows s))).
    { apply filter_In. split; [exact Hr0|]. rewrite matches_id. now apply Z.eqb_eq. }
    rewrite Hcase in Hx. destruct Hx as [<-|[]]. reflexivity. }
  assert (Hgoal : map id (store k u' (rows s')) = map id (rows s)
                  /\ map email (store k u' (rows s')) = map email (rows s)).
  { rewrite Hrows. split; apply store_map; intros r0 Hr0 Hk;
      rewrite (Hsel r0 Hr0 Hk); assumption. }
  unfold set_rows. simpl.
  destruct r as [[]|e]; simpl; exact Hgoal.
Qed.


Lemma next_id_above l r : In r l -> id r < next_id l.
Proof.
  unfold next_id. induction l as [|a l IH]; intros Hin; [contradiction|].
  cbn [fold_right]. destruct Hin as [->|Hin]; [lia|]. specialize (IH Hin). lia.
Qed.

Lemma select_email_nil_notin e l :
  select [kw_email e] l = [] -> ~ In e (map email l).
Proof.
  intros Hsel Hin. apply in_map_iff in Hin as [r [He Hr]].
  assert (Hx : In r (select [kw_email e] l)).
  { apply filter_In. split; [exact Hr|]. rewrite matches_email. now apply String.eqb_eq. }
  now rewrite Hsel in Hx.
Qed.

Lemma NoDup_snoc {A} (l : list A) (a : A) : NoDup l -> ~ In a l -> NoDup (l ++ [a]).
Proof.
  intros Hnd Hnotin. apply NoDup_rev in Hnd. apply (NoDup_cons a) in Hnd.
  - apply NoDup_rev in Hnd. simpl in Hnd. now rewrite rev_involutive in Hnd.
  - now rewrite <- in_rev.
Qed.

Lemma consistent_keys s s' :
  map id (rows s') = map id (rows s) /\ map email (rows s') = map email (rows s) ->
  consistent s -> consistent s'.
Proof.
  unfold consistent, primary_key, unique_email. intros [-> ->]. auto.
Qed.

Lemma register_user_consistent e p s :
  consistent s -> consistent (snd (register_user hashpw gensalt e p s)).
Proof.
  intros [Hpk Hue]. unfold register_user, try_except, bind.
  destruct (find_user_by_cases [kw_email e] s) as [Hrows Hcase].
  destruct (find_user_by [kw_email e] s) as [[u|x] s'] eqn:E;
    cbn [fst snd] in Hrows, Hcase.
  - cbn. unfold consistent. rewrite Hrows. auto.
  - cbn [find fst snd]. destruct (isinstance x CNoResultFound) eqn:Hx.
    + specialize (Hcase eq_refl).
      unfold _hash_password, add_user, commit, bind, draw, get_rows, set_rows, log, ret.
      unfold consistent. cbn. rewrite Hrows. split.
      * unfold primary_key. rewrite map_app. apply NoDup_snoc; [exact Hpk|].
        intros Hin. apply in_map_iff in Hin as [r [Hid Hr]].
        pose proof (next_id_above (rows s) r Hr) as Hlt.
        change (id r = next_id (rows s)) in Hid. lia.
      * unfold unique_email. rewrite map_app. apply NoDup_snoc; [exact Hue|].
        now apply select_email_nil_notin.
    + cbn. unfold consistent. rewrite Hrows. auto.
Qed.

(** Every state the service can be in has distinct ids and distinct
    emails: the hypotheses [primary_key] and [unique_email] of the
    theorems above hold of it. *)
Theorem reachable_consistent s :
  reachable hashpw checkpw gensalt uuid4 s -> consistent s.
Proof.
  induction 1 as [seed| s e p _ IH | s e p _ IH | s e _ IH | s sid _ IH
                 | s uid _ IH | s e _ IH | s t p _ IH].
  - split; constructor.
  - now apply register_user_consistent.
  - apply (consistent_keys s); [|exact IH].
    apply keeps_keys_try_except; [|split_Forall; auto with keys].
    apply keeps_keys_bind; auto using keeps_keys_find_user_by with keys.
  - apply (consistent_keys s); [|exact IH].
    apply keeps_keys_bind; [apply keeps_keys_find_user_by|]. intros u.
    unfold truthy. apply keeps_keys_bind; [apply keeps_keys_draw|]. intros t.
    apply keeps_keys_bind; auto using keeps_keys_update_user with keys.
  - apply (consistent_keys s); [|exact IH].
    destruct sid as [t|]; [|apply keeps_keys_ret].
    apply keeps_keys_try_except; [|split_Forall; auto with keys].
    apply keeps_keys_bind; auto using keeps_keys_find_user_by with keys.
  - apply (consistent_keys s); [|exact IH].
    now apply keeps_keys_update_user.
  - apply (consistent_keys s); [|exact IH].
    apply keeps_keys_try_except; [|split_Forall; auto with keys].
    apply keeps_keys_bind; [apply keeps_keys_find_user_by|]. intros u.
    apply keeps_keys_bind; [apply keeps_keys_draw|]. intros t.
    apply keeps_keys_bind; auto using keeps_keys_update_user with keys.
  - apply (consistent_keys s); [|exact IH].
    apply keeps_keys_try_except; [|split_Forall; auto with keys].
    apply keeps_keys_bind; [apply keeps_keys_find_user_by|]. intros u.
    apply keeps_keys_bind; [|intros h; now apply keeps_keys_update_user].
    apply keeps_keys_bind; auto with keys.
Qed.


(** ** Tokens on file were generated by the service *)

Lemma drawn_mono e e' o : (e <= e')%nat -> drawn uuid4 e o -> drawn uuid4 e' o.
Proof.
  intros Hle H t Ht. destruct (H t Ht) as [i [Hi Hti]]. exists i. split; [lia|exact Hti].
Qed.

Lemma drawn_None e : drawn uuid4 e None.
Proof. intros t Ht. discriminate. Qed.

Lemma sound_same_table {A} n (m : M A) :
  (forall s, rows (snd (m s)) = rows s /\ (entropy s <= entropy (snd (m s)))%nat) ->
  sound uuid4 n m.
Proof.
  intros H s Hn Htok. destruct (H s) as [Hrows Hent]. split; [lia|].
  intros r Hr. rewrite Hrows in Hr. destruct (Htok r Hr) as [H1 H2].
  split; [exact (drawn_mono _ _ _ Hent H1)|exact (drawn_mono _ _ _ Hent H2)].
Qed.

Lemma sound_ret {A} n (a : A) : sound uuid4 n (ret a).
Proof. apply sound_same_table. intros s. simpl. split; [reflexivity|lia]. Qed.

Lemma sound_raise {A} n (e : exn) : sound uuid4 n (@raise A e).
Proof. apply sound_same_table. intros s. simpl. split; [reflexivity|lia]. Qed.

Lemma sound_log n ev : sound uuid4 n (log ev).
Proof. apply sound_same_table. intros s. simpl. split; [reflexivity|lia]. Qed.

Lemma sound_get_rows n : sound uuid4 n get_rows.
Proof. apply sound_same_table. intros s. simpl. split; [reflexivity|lia]. Qed.

Lemma sound_draw {A} n (gen : nat -> A) : sound uuid4 n (draw gen).
Proof. apply sound_same_table. intros s. simpl. split; [reflexivity|lia]. Qed.

Lemma sound_bind {A B} n (m : M A) (k : A -> M B) :
  sound uuid4 n m -> (forall a, sound uuid4 n (k a)) -> sound uuid4 n (bind m k).
Proof.
  intros Hm Hk s Hn Htok. unfold bind. specialize (Hm s Hn Htok).
  destruct (m s) as [[a|e] s']; simpl in *; [|exact Hm].
  destruct Hm as [Hn' Htok']. exact (Hk a s' Hn' Htok').
Qed.

(** After a token is drawn, what follows runs one draw later. *)
Lemma sound_draw_bind {B} n (k : string -> M B) :
  (forall i, sound uuid4 (S i) (k (uuid4 i))) -> sound uuid4 n (bind (draw uuid4) k).
Proof.
  intros Hk s Hn Htok. unfold bind, draw.
  destruct (Hk (entropy s) (mkState (rows s) (journal s) (S (entropy s)))) as [Hn' Htok'].
  - simpl. lia.
  - intros r Hr. destruct (Htok r Hr) as [H1 H2]. simpl.
    split; [exact (drawn_mono _ _ _ (Nat.le_succ_diag_r _) H1)
           |exact (drawn_mono _ _ _ (Nat.le_succ_diag_r _) H2)].
  - simpl in Hn'. split; [lia|exact Htok'].
Qed.

Lemma sound_try_except {A} n (body : M A) handlers :
  sound uuid4 n body -> Forall (fun h => sound uuid4 n (snd h)) handlers ->
  sound uuid4 n (try_except body handlers).
Proof.
  intros Hb Hh s Hn Htok. unfold try_except. specialize (Hb s Hn Htok).
  destruct (body s) as [[a|e] s']; simpl in *; [exact Hb|].
  destruct (find _ handlers) as [h|] eqn:E; [|exact Hb].
  apply find_some in E as [E _]. rewrite Forall_forall in Hh.
  destruct Hb as [Hn' Htok']. exact (Hh h E s' Hn' Htok').
Qed.

#[local] Hint Resolve sound_ret sound_raise sound_log sound_get_rows sound_draw : keys.

Lemma sound_find_user_by n kw : sound uuid4 n (find_user_by kw).
Proof.
  unfold find_user_by. apply sound_try_except.
  - unfold query_one. destruct (forallb hasattr kw); auto with keys.
    apply sound_bind; auto with keys. intros _.
    apply sound_bind; auto with keys. intros l.
    destruct (select kw l) as [|u1 [|u2 l']]; auto with keys.
  - split_Forall; auto with keys.
Qed.

Lemma find_user_by_entropy kw s : entropy (snd (find_user_by kw s)) = entropy s.
Proof.
  unfold find_user_by, try_except, query_one.
  destruct (forallb hasattr kw); [|reflexivity].
  unfold bind, log, get_rows. simpl.
  now destruct (select kw (rows s)) as [|u1 [|u2 l']].
Qed.

Lemma setattr_loop_drawn e u kw :
  Forall (kwarg_drawn uuid4 e) kw ->
  drawn uuid4 e (session_id u) /\ drawn uuid4 e (reset_token u) ->
  drawn uuid4 e (session_id (snd (setattr_loop u kw)))
  /\ drawn uuid4 e (reset_token (snd (setattr_loop u kw))).
Proof.
  revert u. induction kw as [|k kw IH]; intros u Hkw Hu; simpl; [exact Hu|].
  inversion Hkw as [|k' kw' Hk Hkw']; subst.
  destruct (negb (hasattr k)); [exact Hu|].
  apply IH; [exact Hkw'|]. destruct Hu as [H1 H2].
  destruct k; simpl in *; auto.
Qed.

Lemma sound_update_user n k kw :
  Forall (kwarg_drawn uuid4 n) kw -> sound uuid4 n (update_user k kw).
Proof.
  intros Hkw s Hn Htok. unfold update_user, bind.
  destruct (find_user_by_cases [kw_id k] s) as [Hrows Hcase].
  pose proof (find_user_by_entropy [kw_id k] s) as Hent.
  destruct (find_user_by [kw_id k] s) as [[u|e] s'] eqn:E; simpl in *.
  2:{ split; [lia|]. intros r Hr. rewrite Hrows in Hr. rewrite Hent. now apply Htok. }
  assert (Hu : In u (rows s)).
  { assert (Hx : In u (select [kw_id k] (rows s))) by (rewrite Hcase; now left).
    now apply filter_In in Hx. }
  assert (Hkw' : Forall (kwarg_drawn uuid4 (entropy s)) kw).
  { eapply Forall_impl; [|exact Hkw]. intros a Ha.
    destruct a; simpl in *; auto; eapply drawn_mono; eauto. }
  pose proof (setattr_loop_drawn (entropy s) u kw Hkw' (Htok u Hu)) as Hu'.
  unfold get_rows. destruct (setattr_loop u kw) as [r u']. simpl in Hu'.
  assert (Hgoal : forall r0, In r0 (store k u' (rows s')) ->
                    drawn uuid4 (entropy s') (session_id r0)
                    /\ drawn uuid4 (entropy s') (reset_token r0)).
  { intros r0 Hr0. rewrite Hent. rewrite Hrows in Hr0.
    apply in_store in Hr0 as [[-> _]|[Hr0 _]]; auto. }
  unfold set_rows. simpl.
  destruct r as [[]|e]; simpl; (split; [lia|exact Hgoal]).
Qed.

Lemma sound_add_user n e h : sound uuid4 n (add_user e h).
Proof.
  intros s Hn Htok. split; [exact Hn|]. simpl.
  intros r Hr. apply in_app_or in Hr as [Hr|[<-|[]]]; [now apply Htok|].
  simpl. split; apply drawn_None.
Qed.

(** In every state of the service, the session ids and reset tokens on
    file are values the generator gave before. *)
Theorem reachable_tokens_drawn s :
  reachable hashpw checkpw gensalt uuid4 s -> tokens_drawn uuid4 s.
Proof.
  assert (Hnone : forall n, kwarg_drawn uuid4 n (kw_reset_token None)
                            /\ kwarg_drawn uuid4 n (kw_session_id None)).
  { intros n. split; apply drawn_None. }
  assert (Hstep : forall A (m : M A) s0,
             sound uuid4 0 m -> tokens_drawn uuid4 s0 -> tokens_drawn uuid4 (snd (m s0))).
  { intros A m s0 Hm Hs0. apply Hm; [lia|exact Hs0]. }
  induction 1 as [seed| s e p _ IH | s e p _ IH | s e _ IH | s sid _ IH
                 | s uid _ IH | s e _ IH | s t p _ IH].
  - intros r [].
  - apply Hstep; [|exact IH]. apply sound_try_except.
    + apply sound_bind; auto using sound_find_user_by with keys.
    + split_Forall. apply sound_bind; [|intros h; apply sound_add_user].
      apply sound_bind; auto with keys.
  - apply Hstep; [|exact IH]. apply sound_try_except.
    + apply sound_bind; auto using sound_find_user_by with keys.
    + split_Forall; auto with keys.
  - apply Hstep; [|exact IH].
    apply sound_bind; [apply sound_find_user_by|]. intros u. unfold truthy.
    apply sound_draw_bind. intros i. apply sound_bind; auto with keys.
    apply sound_update_user. split_Forall.
    intros t' [= <-]. exists i. split; [lia|reflexivity].
  - apply Hstep; [|exact IH]. destruct sid as [t|]; [|apply sound_ret].
    apply sound_try_except.
    + apply sound_bind; auto using sound_find_user_by with keys.
    + split_Forall; auto with keys.
  - apply Hstep; [|exact IH]. apply sound_update_user.
    split_Forall. apply Hnone.
  - apply Hstep; [|exact IH]. apply sound_try_except.
    + apply sound_bind; [apply sound_find_user_by|]. intros u.
      apply sound_draw_bind. intros i. apply sound_bind; auto with keys.
      apply sound_update_user. split_Forall.
      intros t' [= <-]. exists i. split; [lia|reflexivity].
    + split_Forall; auto with keys.
  - apply Hstep; [|exact IH]. apply sound_try_except.
    + apply sound_bind; [apply sound_find_user_by|]. intros u.
      apply sound_bind; [apply sound_bind; auto with keys|]. intros h.
      apply sound_update_user. split_Forall; [exact I|apply Hnone].
    + split_Forall; auto with keys.
Qed.

(** X20: with a generator that never repeats a value, the next token is
    held by no record of any state of the service: the freshness hypotheses of
    the life-cycle theorems hold there. *)
Theorem reachable_fresh s :
  reachable hashpw checkpw gensalt uuid4 s ->
  (forall i j, uuid4 i = uuid4 j -> i = j) ->
  session_fresh (uuid4 (entropy s)) (rows s) /\ reset_fresh (uuid4 (entropy s)) (rows s).
Proof.
  intros Hreach Hinj. pose proof (reachable_tokens_drawn s Hreach) as Htok.
  split; intros r Hr Heq; destruct (Htok r Hr) as [H1 H2].
  - destruct (H1 _ Heq) as [i [Hi Hti]]. apply Hinj in Hti. lia.
  - destruct (H2 _ Heq) as [i [Hi Hti]]. apply Hinj in Hti. lia.
Qed.


(** ** The repository on its own *)

Lemma select_no_criteria l : select [] l = l.
Proof.
  unfold select, matches. simpl.
  induction l as [|a l IH]; simpl; [reflexivity|now rewrite IH].
Qed.

Lemma in_select kw l u : In u (select kw l) -> In u l /\ forall k, In k kw -> holds u k = true.
Proof.
  unfold select. rewrite filter_In. intros [Hin Hm]. split; [exact Hin|].
  unfold matches in Hm. now rewrite forallb_forall in Hm.
Qed.


(** X2: without any criterion the query ranges over the whole table:
    [NoResultFound] on an empty table, the record of a one-record table,
    [InvalidRequestError] from two records on. *)
Theorem find_user_by_no_criteria (s : state) :
  fst (find_user_by [] s) =
  match rows s with
  | [] => Raise (NoResultFound "No user found for the given parameters.")
  | [u] => Return u
  | _ :: _ :: _ => Raise (InvalidRequestError "Invalid query arguments provided.")
  end.
Proof.
  unfold find_user_by, try_except, query_one, bind, log, get_rows. simpl.
  rewrite select_no_criteria. now destruct (rows s) as [|u1 [|u2 l]].
Qed.

(** X3: a record returned by [find_user_by] is on file and meets every
    criterion, it is the only such record, and the query changed neither
    the table nor the random source. *)
Theorem find_user_by_sound (kw : kwargs) (s : state) (u : User) :
  fst (find_user_by kw s) = Return u ->
  In u (rows s)
  /\ (forall k, In k kw -> holds u k = true)
  /\ (forall r, In r (rows s) -> matches kw r = true -> r = u)
  /\ rows (snd (find_user_by kw s)) = rows s
  /\ entropy (snd (find_user_by kw s)) = entropy s.
Proof.
  intros Hret. destruct (find_user_by_cases kw s) as [Hrows Hcase].
  rewrite Hret in Hcase.
  assert (Hu : In u (select kw (rows s))) by (rewrite Hcase; now left).
  apply in_select in Hu as [Hin Hholds].
  repeat split; auto using find_user_by_entropy.
  intros r Hr Hm.
  assert (Hx : In r (select kw (rows s))) by (apply filter_In; now split).
  rewrite Hcase in Hx. destruct Hx as [<-|[]]. reflexivity.
Qed.

Lemma store_other k u' l r : In r l -> id r <> k -> In r (store k u' l).
Proof.
  intros Hin Hk. unfold store. apply in_map_iff. exists r. split; [|exact Hin].
  apply Z.eqb_neq in Hk. now rewrite Hk.
Qed.

Lemma store_length k u' l : List.length (store k u' l) = List.length l.
Proof. unfold store. apply length_map. Qed.

(** What [update_user] does with keys that all are attributes, whatever
    the table. *)
Lemma update_user_cases k kw s :
  forallb hasattr kw = true ->
  entropy (snd (update_user k kw s)) = entropy s
  /\ ((fst (update_user k kw s) = Return tt
       /\ exists u, select [kw_id k] (rows s) = [u]
                    /\ rows (snd (update_user k kw s))
                       = store k (fold_left setattr kw u) (rows s))
      \/ (exists e, fst (update_user k kw s) = Raise e
                    /\ rows (snd (update_user k kw s)) = rows s)).
Proof.
  intros Hkw. unfold update_user, bind.
  destruct (find_user_by_cases [kw_id k] s) as [Hrows Hcase].
  pose proof (find_user_by_entropy [kw_id k] s) as Hent.
  destruct (find_user_by [kw_id k] s) as [[u|e] s'] eqn:E; cbn [fst snd] in *.
  - unfold get_rows. rewrite (setattr_loop_ok u kw Hkw).
    unfold set_rows, commit, bind, get_rows, log. cbn.
    split; [exact Hent|]. left. split; [reflexivity|].
    exists u. split; [exact Hcase|now rewrite Hrows].
  - split; [exact Hent|]. right. exists e. now split.
Qed.


Lemma primary_key_snoc l u :
  primary_key l -> (forall r, In r l -> id r < id u) -> primary_key (l ++ [u]).
Proof.
  intros Hpk Hlt. unfold primary_key. rewrite map_app. apply NoDup_snoc; [exact Hpk|].
  intros Hin. apply in_map_iff in Hin as [r [Hid Hr]]. specialize (Hlt r Hr). lia.
Qed.

(** X4: on a table with distinct ids, none negative and the largest
    below [2^63 - 1], [add_user] gives the new record an id above every
    id on file and leaves the records on file as they were; the new
    record and every earlier one are then found by their ids. *)
Theorem add_user_then_find_by_id (e : string) (h : bytes) (s : state) :
  primary_key (rows s) -> room_for_next_id (rows s) ->
  let u := mkUser (next_id (rows s)) e h None None in
  let s' := snd (add_user e h s) in
  fst (add_user e h s) = Return u
  /\ rows s' = rows s ++ [u]
  /\ (forall r, In r (rows s) -> id r < id u)
  /\ fst (find_user_by [kw_id (id u)] s') = Return u
  /\ (forall r, In r (rows s) -> fst (find_user_by [kw_id (id r)] s') = Return r).
Proof.
  intros Hpk _ u s'.
  assert (Hlt : forall r, In r (rows s) -> id r < id u)
    by (intros r Hr; now apply next_id_above).
  assert (Hrows : rows s' = rows s ++ [u]) by reflexivity.
  assert (Hpk' : primary_key (rows s'))
    by (rewrite Hrows; now apply primary_key_snoc).
  repeat split; auto.
  - rewrite (find_user_by_one [kw_id (id u)] s' u); [reflexivity|reflexivity|].
    apply select_id; [exact Hpk'|]. rewrite Hrows. apply in_or_app. right. now left.
  - intros r Hr.
    rewrite (find_user_by_one [kw_id (id r)] s' r); [reflexivity|reflexivity|].
    apply select_id; [exact Hpk'|]. rewrite Hrows. apply in_or_app. now left.
Qed.

(** X5: [add_user] does not look at the emails on file: on a table with
    no negative id and the largest id below [2^63 - 1], an email that a
    record already has is added again, and from then on a query by that
    email raises [InvalidRequestError]. *)
Theorem add_user_accepts_duplicate_email (e : string) (h : bytes) (s : state) (r : User) :
  room_for_next_id (rows s) -> In r (rows s) -> email r = e ->
  let s' := snd (add_user e h s) in
  fst (add_user e h s) = Return (mkUser (next_id (rows s)) e h None None)
  /\ fst (find_user_by [kw_email e] s')
     = Raise (InvalidRequestError "Invalid query arguments provided.").
Proof.
  intros _ Hin He s'. split; [reflexivity|].
  rewrite find_user_by_many; [reflexivity|].
  change (rows s') with (rows s ++ [mkUser (next_id (rows s)) e h None None]).
  unfold select. rewrite filter_app, length_app.
  assert (Hnew : filter (matches [kw_email e]) [mkUser (next_id (rows s)) e h None None]
                 = [mkUser (next_id (rows s)) e h None None]).
  { cbn [filter]. rewrite matches_email. cbn [email]. now rewrite String.eqb_refl. }
  rewrite Hnew.
  assert (Hx : In r (filter (matches [kw_email e]) (rows s))).
  { apply filter_In. split; [exact Hin|]. rewrite matches_email. now apply String.eqb_eq. }
  destruct (filter (matches [kw_email e]) (rows s)); [contradiction|simpl; lia].
Qed.

(** X6: when a key of [update_user] is no attribute of [User] (neither a
    column, nor [metadata] or [registry], nor a name that starts with an
    underscore), the method raises [ValueError] naming it and commits
    nothing, but the attributes assigned before it stay changed on the
    session's record. *)
Theorem update_user_invalid_attribute
    (u : User) (kw1 kw2 : kwargs) (name : string) (s : state) :
  primary_key (rows s) -> In u (rows s) -> forallb hasattr kw1 = true ->
  foreign name = true ->
  update_user (id u) (kw1 ++ kw_other name :: kw2) s =
  (Raise (ValueError ("'" ++ name ++ "' is not a valid attribute of User.")),
   mkState (store (id u) (fold_left setattr kw1 u) (rows s))
           (journal s ++ [Select [kw_id (id u)]])
           (entropy s)).
Proof.
  intros Hpk Hin Hkw1 _. unfold update_user, bind.
  rewrite (find_user_by_one [kw_id (id u)] s u) by (auto using select_id).
  unfold get_rows. cbn [fst snd logged rows].
  assert (Hloop : forall v, forallb hasattr kw1 = true ->
            setattr_loop v (kw1 ++ kw_other name :: kw2) =
            (Raise (ValueError ("'" ++ name ++ "' is not a valid attribute of User.")),
             fold_left setattr kw1 v)).
  { clear. induction kw1 as [|k kw1 IH]; intros v H; simpl in *; [reflexivity|].
    apply andb_true_iff in H as [Hk Hkw]. rewrite Hk. simpl. now apply IH. }
  rewrite (Hloop u Hkw1). reflexivity.
Qed.

(** X7: [update_user] with attribute keys changes at most the record with
    the given id: the table keeps its length, every other record stays on
    file, and the random source is not read. *)
Theorem update_user_touches_one_record (k : Z) (kw : kwargs) (s : state) :
  forallb hasattr kw = true ->
  let s' := snd (update_user k kw s) in
  List.length (rows s') = List.length (rows s)
  /\ (forall r, In r (rows s) -> id r <> k -> In r (rows s'))
  /\ entropy s' = entropy s.
Proof.
  intros Hkw s'. destruct (update_user_cases k kw s Hkw) as [Hent Hcases].
  fold s' in Hent, Hcases.
  destruct Hcases as [[_ [u [_ Hrows]]]|[e [_ Hrows]]]; rewrite Hrows.
  - repeat split; auto using store_length, store_other.
  - repeat split; auto.
Qed.


(** ** How the service operations compose *)

Lemma unique_email_snoc l u :
  unique_email l -> (forall r, In r l -> email r <> email u) -> unique_email (l ++ [u]).
Proof.
  intros Hue Hnew. unfold unique_email. rewrite map_app. apply NoDup_snoc; [exact Hue|].
  intros Hin. apply in_map_iff in Hin as [r [He Hr]]. now apply (Hnew r Hr).
Qed.

(** X8: after [register_user e p] on a table without [e], [valid_login e q]
    is [checkpw] of [q] against the hash stored at registration, so with
    a bcrypt that accepts a password against its own hash the registered
    password logs in. *)
Theorem register_then_login (e p : string) (s : state) :
  unique_email (rows s) -> (forall r, In r (rows s) -> email r <> e) ->
  (forall pw n, checkpw pw (hashpw pw (gensalt n)) = true) ->
  let s' := snd (register_user hashpw gensalt e p s) in
  fst (valid_login checkpw e p s') = Return true
  /\ (forall q, fst (valid_login checkpw e q s')
                = Return (checkpw (encode q) (hashpw (encode p) (gensalt (entropy s))))).
Proof.
  intros Hue Hmiss Hbcrypt s'.
  set (u := mkUser (next_id (rows s)) e (hashpw (encode p) (gensalt (entropy s))) None None).
  assert (Hrows : rows s' = rows s ++ [u])
    by (subst s'; now rewrite register_user_missing).
  assert (Hue' : unique_email (rows s')) by (rewrite Hrows; now apply unique_email_snoc).
  assert (Hin : In u (rows s')) by (rewrite Hrows; apply in_or_app; right; now left).
  assert (Hq : forall q, fst (valid_login checkpw e q s')
                         = Return (checkpw (encode q) (hashed_password u))).
  { intros q. pose proof (valid_login_found u q s' Hue' Hin) as E.
    change (email u) with e in E. now rewrite E. }
  split; [|exact Hq]. rewrite Hq. simpl. f_equal. apply Hbcrypt.
Qed.

(** X9: registering an address twice: the second [register_user] raises
    "User e already exists" whatever the password, and leaves the table
    as the first one made it. *)
Theorem register_user_twice (e p p' : string) (s : state) :
  unique_email (rows s) -> (forall r, In r (rows s) -> email r <> e) ->
  let s' := snd (register_user hashpw gensalt e p s) in
  fst (register_user hashpw gensalt e p' s')
  = Raise (ValueError ("User " ++ e ++ " already exists"))
  /\ rows (snd (register_user hashpw gensalt e p' s')) = rows s'.
Proof.
  intros Hue Hmiss s'.
  set (u := mkUser (next_id (rows s)) e (hashpw (encode p) (gensalt (entropy s))) None None).
  assert (Hrows : rows s' = rows s ++ [u])
    by (subst s'; now rewrite register_user_missing).
  assert (Hue' : unique_email (rows s')) by (rewrite Hrows; now apply unique_email_snoc).
  assert (Hin : In u (rows s')) by (rewrite Hrows; apply in_or_app; right; now left).
  pose proof (register_user_found u p' s' Hue' Hin) as E.
  change (email u) with e in E. now rewrite E.
Qed.

(** X10: a second [create_session] for the same user replaces the session
    id: the first token no longer resolves to anyone, the second resolves
    to the user. *)
Theorem create_session_replaces_token (u : User) (s : state) :
  primary_key (rows s) -> unique_email (rows s) -> In u (rows s) ->
  let t1 := uuid4 (entropy s) in
  let t2 := uuid4 (S (entropy s)) in
  session_fresh t1 (rows s) -> session_fresh t2 (rows s) -> t1 <> t2 ->
  let s1 := snd (create_session uuid4 (email u) s) in
  let s2 := snd (create_session uuid4 (email u) s1) in
  fst (create_session uuid4 (email u) s1) = Return (Some t2)
  /\ fst (get_user_from_session_id (Some t1) s2) = Return None
  /\ fst (get_user_from_session_id (Some t2) s2)
     = Return (Some (mkUser (id u) (email u) (hashed_password u) (Some t2) (reset_token u))).
Proof.
  intros Hpk Hue Hin t1 t2 Hf1 Hf2 Hneq s1 s2.
  set (u1 := setattr u (kw_session_id (Some t1))).
  set (u2 := mkUser (id u) (email u) (hashed_password u) (Some t2) (reset_token u)).
  pose proof (create_session_found u s Hpk Hue Hin) as E1. cbv zeta in E1.
  assert (Hrows1 : rows s1 = store (id u) u1 (rows s)) by (subst s1; now rewrite E1).
  assert (Hent1 : entropy s1 = S (entropy s)) by (subst s1; now rewrite E1).
  assert (Hpk1 : primary_key (rows s1)) by (rewrite Hrows1; now apply store_primary_key).
  assert (Hue1 : unique_email (rows s1)) by (rewrite Hrows1; now apply store_unique_email).
  assert (Hin1 : In u1 (rows s1))
    by (rewrite Hrows1; now apply (store_in (id u) u1 (rows s) u)).
  pose proof (create_session_found u1 s1 Hpk1 Hue1 Hin1) as E2. cbv zeta in E2.
  rewrite Hent1 in E2. change (email u1) with (email u) in E2.
  assert (Hrows2 : rows s2 = store (id u) u2 (rows s)).
  { subst s2. rewrite E2. cbn [snd rows]. rewrite Hrows1. now apply store_store. }
  assert (Hpk2 : primary_key (rows s2)) by (rewrite Hrows2; now apply store_primary_key).
  split; [now rewrite E2|split].
  - rewrite get_user_from_session_id_missing; [reflexivity|].
    rewrite Hrows2. apply store_session_fresh; [exact Hf1|].
    intros [= H]. now apply Hneq.
  - rewrite (get_user_from_session_id_found u2 t2 s2); auto.
    + rewrite Hrows2. now apply (store_in (id u) u2 (rows s) u).
    + rewrite Hrows2. now apply store_session_holder.
Qed.

(** X11: a password reset does not end the session: after
    [update_password] the user's session id still resolves to the user,
    now with the new hash and no reset token. *)
Theorem update_password_keeps_session (u : User) (t sid p : string) (s : state) :
  primary_key (rows s) -> In u (rows s) ->
  reset_token u = Some t ->
  (forall r, In r (rows s) -> reset_token r = Some t -> id r = id u) ->
  session_id u = Some sid ->
  (forall r, In r (rows s) -> session_id r = Some sid -> id r = id u) ->
  let s' := snd (update_password hashpw gensalt t p s) in
  fst (get_user_from_session_id (Some sid) s')
  = Return (Some (mkUser (id u) (email u) (hashpw (encode p) (gensalt (entropy s)))
                         (Some sid) None)).
Proof.
  intros Hpk Hin Ht Htonly Hsid Hsonly s'.
  set (u' := mkUser (id u) (email u) (hashpw (encode p) (gensalt (entropy s)))
                    (Some sid) None).
  pose proof (update_password_found u t p s Hpk Hin Ht Htonly) as E. cbv zeta in E.
  assert (Hrows : rows s' = store (id u) u' (rows s)).
  { subst s' u'. rewrite E. cbn [snd rows setattr]. cbn. now rewrite Hsid. }
  rewrite (get_user_from_session_id_found u' sid s'); auto.
  - rewrite Hrows. now apply store_primary_key.
  - rewrite Hrows. now apply (store_in (id u) u' (rows s) u).
  - rewrite Hrows. intros r Hr Hrs.
    apply in_store in Hr as [[-> _]|[Hr _]]; [reflexivity|]. now apply Hsonly.
Qed.

(** X12: [destroy_session] of a registered user succeeds whether or not
    the user has a session, and a second call leaves the table as the
    first one made it. *)
Theorem destroy_session_twice (u : User) (s : state) :
  primary_key (rows s) -> In u (rows s) ->
  let u0 := mkUser (id u) (email u) (hashed_password u) None (reset_token u) in
  let s1 := snd (destroy_session (id u) s) in
  fst (destroy_session (id u) s) = Return tt
  /\ In u0 (rows s1)
  /\ fst (destroy_session (id u) s1) = Return tt
  /\ rows (snd (destroy_session (id u) s1)) = rows s1.
Proof.
  intros Hpk Hin u0 s1.
  pose proof (destroy_session_found u s Hpk Hin) as E1. cbv zeta in E1.
  assert (Hrows1 : rows s1 = store (id u) u0 (rows s)) by (subst s1; now rewrite E1).
  assert (Hpk1 : primary_key (rows s1)) by (rewrite Hrows1; now apply store_primary_key).
  assert (Hin1 : In u0 (rows s1))
    by (rewrite Hrows1; now apply (store_in (id u) u0 (rows s) u)).
  pose proof (destroy_session_found u0 s1 Hpk1 Hin1) as E2. cbv zeta in E2.
  change (id u0) with (id u) in E2.
  repeat split.
  - now rewrite E1.
  - exact Hin1.
  - now rewrite E2.
  - rewrite E2. cbn [snd rows]. rewrite Hrows1. now apply store_store.
Qed.


(** ** What the service operations leave alone *)

(** X13: [valid_login] and [get_user_from_session_id] only read: whatever
    the table (duplicates included) and whatever they return or raise,
    the records and the random source are as before. *)
Theorem lookups_read_only (e p : string) (sid : option string) (s : state) :
  rows (snd (valid_login checkpw e p s)) = rows s
  /\ entropy (snd (valid_login checkpw e p s)) = entropy s
  /\ rows (snd (get_user_from_session_id sid s)) = rows s
  /\ entropy (snd (get_user_from_session_id sid s)) = entropy s.
Proof.
  assert (Hfind : forall kw,
            rows (snd (find_user_by kw s)) = rows s
            /\ entropy (snd (find_user_by kw s)) = entropy s)
    by (intros kw; split; [apply find_user_by_cases|apply find_user_by_entropy]).
  split; [|split; [|split]].
  - unfold valid_login, try_except, bind. destruct (Hfind [kw_email e]) as [H _].
    destruct (find_user_by [kw_email e] s) as [[u|x] s']; cbn [fst snd] in *; [exact H|].
    cbn [find fst]. destruct (isinstance x CNoResultFound); exact H.
  - unfold valid_login, try_except, bind. destruct (Hfind [kw_email e]) as [_ H].
    destruct (find_user_by [kw_email e] s) as [[u|x] s']; cbn [fst snd] in *; [exact H|].
    cbn [find fst]. destruct (isinstance x CNoResultFound); exact H.
  - destruct sid as [t|]; [|reflexivity].
    unfold get_user_from_session_id, try_except, bind.
    destruct (Hfind [kw_session_id (Some t)]) as [H _].
    destruct (find_user_by [kw_session_id (Some t)] s) as [[u|x] s'];
      cbn [fst snd] in *; [exact H|].
    cbn [find fst]. destruct (isinstance x CNoResultFound); exact H.
  - destruct sid as [t|]; [|reflexivity].
    unfold get_user_from_session_id, try_except, bind.
    destruct (Hfind [kw_session_id (Some t)]) as [_ H].
    destruct (find_user_by [kw_session_id (Some t)] s) as [[u|x] s'];
      cbn [fst snd] in *; [exact H|].
    cbn [find fst]. destruct (isinstance x CNoResultFound); exact H.
Qed.

Lemma update_user_raise k kw s :
  forallb hasattr kw = true ->
  (exists x, fst (update_user k kw s) = Raise x) ->
  rows (snd (update_user k kw s)) = rows s.
Proof.
  intros Hkw [x Hx].
  destruct (update_user_cases k kw s Hkw) as [_ [[Hret _]|[y [_ Hrows]]]];
    [congruence|exact Hrows].
Qed.


(** X14: a service operation that raises leaves the records as they
    were: no operation fails half-way through a change of the table. *)
Theorem raise_leaves_table (s : state) (x : exn) :
  (forall e p, fst (register_user hashpw gensalt e p s) = Raise x ->
     rows (snd (register_user hashpw gensalt e p s)) = rows s)
  /\ (forall e, fst (create_session uuid4 e s) = Raise x ->
        rows (snd (create_session uuid4 e s)) = rows s)
  /\ (forall k, fst (destroy_session k s) = Raise x ->
        rows (snd (destroy_session k s)) = rows s)
  /\ (forall e, fst (get_reset_password_token uuid4 e s) = Raise x ->
        rows (snd (get_reset_password_token uuid4 e s)) = rows s)
  /\ (forall t p, fst (update_password hashpw gensalt t p s) = Raise x ->
        rows (snd (update_password hashpw gensalt t p s)) = rows s).
Proof.
  assert (Hfind : forall kw, rows (snd (find_user_by kw s)) = rows s)
    by (intros kw; apply find_user_by_cases).
  split; [|split; [|split; [|split]]].
  - intros e p. unfold register_user, try_except, bind.
    specialize (Hfind [kw_email e]).
    destruct (find_user_by [kw_email e] s) as [[u|y] s']; cbn [fst snd] in *.
    + intros _. exact Hfind.
    + cbn [find fst]. destruct (isinstance y CNoResultFound); cbn [snd].
      * intros H. discriminate H.
      * intros _. exact Hfind.
  - intros e. unfold create_session, bind.
    specialize (Hfind [kw_email e]).
    destruct (find_user_by [kw_email e] s) as [[u|y] s']; cbn [fst snd] in *;
      [|intros _; exact Hfind].
    unfold truthy, _generate_uuid, draw.
    set (s'' := mkState (rows s') (journal s') (S (entropy s'))).
    set (kw := [kw_session_id (Some (uuid4 (entropy s')))]).
    pose proof (update_user_raise (id u) kw s'' eq_refl) as Hup.
    destruct (update_user (id u) kw s'') as [[a|y] s3]; cbn [fst snd] in *.
    + intros H. discriminate H.
    + intros _. rewrite Hup; [exact Hfind|now exists y].
  - intros k H. unfold destroy_session in *. apply update_user_raise; [reflexivity|].
    now exists x.
  - intros e. unfold get_reset_password_token, try_except, bind.
    specialize (Hfind [kw_email e]).
    destruct (find_user_by [kw_email e] s) as [[u|y] s']; cbn [fst snd] in *.
    + unfold _generate_uuid, draw.
      set (s'' := mkState (rows s') (journal s') (S (entropy s'))).
      set (kw := [kw_reset_token (Some (uuid4 (entropy s')))]).
      pose proof (update_user_raise (id u) kw s'' eq_refl) as Hup.
      destruct (update_user (id u) kw s'') as [[a|y] s3]; cbn [fst snd] in *.
      * intros H. discriminate H.
      * cbn [find fst]. intros _.
        assert (Hs3 : rows s3 = rows s) by (rewrite Hup; [exact Hfind|now exists y]).
        destruct (isinstance y CNoResultFound); exact Hs3.
    + cbn [find fst]. intros _. destruct (isinstance y CNoResultFound); exact Hfind.
  - intros t p. unfold update_password, try_except, bind.
    specialize (Hfind [kw_reset_token (Some t)]).
    destruct (find_user_by [kw_reset_token (Some t)] s) as [[u|y] s']; cbn [fst snd] in *.
    + unfold _hash_password, draw, ret, bind.
      set (s'' := mkState (rows s') (journal s') (S (entropy s'))).
      set (kw := [kw_hashed_password (hashpw (encode p) (gensalt (entropy s')));
                  kw_reset_token None]).
      pose proof (update_user_raise (id u) kw s'' eq_refl) as Hup.
      destruct (update_user (id u) kw s'') as [[a|y] s3]; cbn [fst snd] in *.
      * intros H. discriminate H.
      * cbn [find fst]. intros _.
        assert (Hs3 : rows s3 = rows s) by (rewrite Hup; [exact Hfind|now exists y]).
        destruct (isinstance y CNoResultFound); exact Hs3.
    + cbn [find fst]. intros _. destruct (isinstance y CNoResultFound); exact Hfind.
Qed.


(** ** Lookups that cannot fail *)

Lemma select_holds_session_id t l u :
  In u (select [kw_session_id (Some t)] l) -> In u l /\ session_id u = Some t.
Proof.
  intros H. apply filter_In in H as [Hin Hm]. rewrite matches_session_id in Hm.
  split; [exact Hin|now apply option_eqb_eq].
Qed.

(** X15: on a table with distinct ids where no session id is shared,
    [get_user_from_session_id] never raises: it returns [None], or a
    record on file that holds the session id asked for. *)
Theorem get_user_from_session_id_never_raises (s : state) :
  primary_key (rows s) -> distinct_tokens session_id (rows s) ->
  forall sid,
    fst (get_user_from_session_id sid s) = Return None
    \/ exists u, fst (get_user_from_session_id sid s) = Return (Some u)
                 /\ In u (rows s) /\ session_id u = sid.
Proof.
  intros Hpk Hdis [t|]; [|now left].
  destruct (select [kw_session_id (Some t)] (rows s)) as [|u l] eqn:E.
  - left. unfold get_user_from_session_id, try_except, bind.
    now rewrite (find_user_by_none [kw_session_id (Some t)] s).
  - right. exists u.
    assert (Hu : In u (select [kw_session_id (Some t)] (rows s))) by (rewrite E; now left).
    apply select_holds_session_id in Hu as [Hin Ht].
    split; [|now split].
    rewrite (get_user_from_session_id_found u t s); auto.
    intros r Hr Hrt. exact (Hdis r u t Hr Hin Hrt Ht).
Qed.


(** ** The shape of the table in the states of the service *)

Lemma keeps_keys_service :
  (forall e p, keeps_keys (valid_login checkpw e p))
  /\ (forall e, keeps_keys (create_session uuid4 e))
  /\ (forall sid, keeps_keys (get_user_from_session_id sid))
  /\ (forall k, keeps_keys (destroy_session k))
  /\ (forall e, keeps_keys (get_reset_password_token uuid4 e))
  /\ (forall t p, keeps_keys (update_password hashpw gensalt t p)).
Proof.
  split; [|split; [|split; [|split; [|split]]]].
  - intros e p. apply keeps_keys_try_except; [|split_Forall; auto with keys].
    apply keeps_keys_bind; auto using keeps_keys_find_user_by with keys.
  - intros e. apply keeps_keys_bind; [apply keeps_keys_find_user_by|]. intros u.
    unfold truthy. apply keeps_keys_bind; [apply keeps_keys_draw|]. intros t.
    apply keeps_keys_bind; auto using keeps_keys_update_user with keys.
  - intros [t|]; [|apply keeps_keys_ret].
    apply keeps_keys_try_except; [|split_Forall; auto with keys].
    apply keeps_keys_bind; auto using keeps_keys_find_user_by with keys.
  - intros k. now apply keeps_keys_update_user.
  - intros e. apply keeps_keys_try_except; [|split_Forall; auto with keys].
    apply keeps_keys_bind; [apply keeps_keys_find_user_by|]. intros u.
    apply keeps_keys_bind; [apply keeps_keys_draw|]. intros t.
    apply keeps_keys_bind; auto using keeps_keys_update_user with keys.
  - intros t p. apply keeps_keys_try_except; [|split_Forall; auto with keys].
    apply keeps_keys_bind; [apply keeps_keys_find_user_by|]. intros u.
    apply keeps_keys_bind; [|intros h; now apply keeps_keys_update_user].
    apply keeps_keys_bind; auto with keys.
Qed.

(** [register_user] leaves the table as it is or adds one record at its
    end, with the next id and no token. *)
Lemma register_user_rows e p s :
  rows (snd (register_user hashpw gensalt e p s)) = rows s
  \/ exists h, rows (snd (register_user hashpw gensalt e p s))
               = rows s ++ [mkUser (next_id (rows s)) e h None None].
Proof.
  unfold register_user, try_except, bind.
  destruct (find_user_by_cases [kw_email e] s) as [Hrows _].
  destruct (find_user_by [kw_email e] s) as [[u|x] s'] eqn:E; cbn [fst snd] in Hrows.
  - left. exact Hrows.
  - cbn [find fst snd]. destruct (isinstance x CNoResultFound).
    + right. exists (hashpw (encode p) (gensalt (entropy s'))).
      unfold _hash_password, add_user, commit, bind, draw, get_rows, set_rows, log, ret.
      cbn [fst snd rows]. now rewrite Hrows.
    + left. exact Hrows.
Qed.

Lemma fold_max_ids l :
  fold_right (fun u m => Z.max (id u) m) 0 l = fold_right Z.max 0 (map id l).
Proof. induction l as [|a l IH]; cbn [fold_right map]; [reflexivity|now rewrite IH]. Qed.

Lemma fold_max_seq a n :
  fold_right Z.max 0 (map Z.of_nat (seq (S a) n)) = Z.of_nat (match n with O => O | _ => a + n end).
Proof.
  revert a. induction n as [|n IH]; intros a; [reflexivity|].
  cbn [seq map fold_right]. rewrite IH. destruct n; lia.
Qed.

Lemma next_id_first_ids l n : map id l = first_ids n -> next_id l = Z.of_nat (S n).
Proof.
  intros H. unfold next_id. rewrite fold_max_ids, H. unfold first_ids.
  rewrite fold_max_seq. destruct n; lia.
Qed.

Lemma first_ids_succ n : first_ids (S n) = first_ids n ++ [Z.of_nat (S n)].
Proof. unfold first_ids. now rewrite seq_S, map_app. Qed.

(** X16: in every state of the service the ids on file are 1, 2, ..., n
    in the order of registration (so they are distinct and none is used
    twice), and no two records have the same email. *)
Theorem reachable_table_shape (s : state) :
  reachable hashpw checkpw gensalt uuid4 s ->
  map id (rows s) = first_ids (List.length (rows s)) /\ unique_email (rows s).
Proof.
  intros Hreach. split; [|now apply reachable_consistent].
  destruct keeps_keys_service as (Hlogin & Hcreate & Hget & Hdestroy & Hreset & Hupdate).
  assert (Hkeep : forall A (m : M A) s0, keeps_keys m ->
            map id (rows s0) = first_ids (List.length (rows s0)) ->
            map id (rows (snd (m s0))) = first_ids (List.length (rows (snd (m s0))))).
  { intros A m s0 Hm H0. destruct (Hm s0) as [Hid _].
    rewrite <- (length_map id (rows (snd (m s0)))), Hid, length_map. exact H0. }
  induction Hreach as [seed| s e p _ IH | s e p _ IH | s e _ IH | s sid _ IH
                      | s uid _ IH | s e _ IH | s t p _ IH]; auto.
  destruct (register_user_rows e p s) as [->|[h ->]]; [exact IH|].
  rewrite map_app, length_app, IH. cbn [map List.length id].
  rewrite (next_id_first_ids _ _ IH), Nat.add_1_r. symmetry. apply first_ids_succ.
Qed.


(** ** No token is shared *)

Section Distinct.

(** The generator never gives the same value twice. *)
Hypothesis uuid4_inj : forall i j, uuid4 i = uuid4 j -> i = j.

Lemma store_drawn (f : User -> option string) b e k u u' l :
  (b <= e)%nat -> In u l ->
  (forall r, In r l -> drawn uuid4 b (f r)) -> column_ok uuid4 f b e u u' ->
  forall r, In r (store k u' l) -> drawn uuid4 e (f r).
Proof.
  intros Hbe Hu Hl Hcol r Hr.
  apply in_store in Hr as [[-> _]|[Hr _]].
  - destruct Hcol as [->|[->|[i [-> Hi]]]].
    + exact (drawn_mono _ _ _ Hbe (Hl u Hu)).
    + apply drawn_None.
    + intros t [= <-]. exists i. split; [lia|reflexivity].
  - exact (drawn_mono _ _ _ Hbe (Hl r Hr)).
Qed.

Lemma store_distinct (f : User -> option string) b e k u u' l :
  In u l -> id u = k -> id u' = k ->
  (forall r, In r l -> drawn uuid4 b (f r)) ->
  distinct_tokens f l -> column_ok uuid4 f b e u u' ->
  distinct_tokens f (store k u' l).
Proof.
  intros Hu Hk Hk' Hl Hdis Hcol.
  assert (Hmix : forall r t, In r l -> id r <> k -> f u' = Some t -> f r = Some t -> False).
  { intros r t Hr Hrk Hu't Hrt. destruct Hcol as [E|[E|[i [E Hi]]]].
    - rewrite E in Hu't. apply Hrk. rewrite <- Hk. exact (Hdis r u t Hr Hu Hrt Hu't).
    - rewrite E in Hu't. discriminate.
    - rewrite E in Hu't. injection Hu't as <-.
      destruct (Hl r Hr _ Hrt) as [j [Hj Hij]]. apply uuid4_inj in Hij. lia. }
  intros r1 r2 t H1 H2 Ht1 Ht2.
  apply in_store in H1 as [[-> _]|[H1 Hk1]]; apply in_store in H2 as [[-> _]|[H2 Hk2]].
  - reflexivity.
  - exfalso. exact (Hmix r2 t H2 Hk2 Ht1 Ht2).
  - exfalso. exact (Hmix r1 t H1 Hk1 Ht2 Ht1).
  - exact (Hdis r1 r2 t H1 H2 Ht1 Ht2).
Qed.

(** [update_user] on a table whose tokens were generated before draw [b],
    writing back a record whose token columns are kept, cleared or
    generated from [b] on. *)
Lemma update_user_tidy k kw s b :
  forallb hasattr kw = true -> (b <= entropy s)%nat ->
  (forall r, In r (rows s) ->
     drawn uuid4 b (session_id r) /\ drawn uuid4 b (reset_token r)) ->
  distinct_tokens session_id (rows s) -> distinct_tokens reset_token (rows s) ->
  (forall u, id (fold_left setattr kw u) = id u
             /\ column_ok uuid4 session_id b (entropy s) u (fold_left setattr kw u)
             /\ column_ok uuid4 reset_token b (entropy s) u (fold_left setattr kw u)) ->
  tidy uuid4 (snd (update_user k kw s)).
Proof.
  intros Hkw Hb Hl Hds Hdr Hcols.
  destruct (update_user_cases k kw s Hkw) as [Hent [[_ [u [Hsel Hrows]]]|[x [_ Hrows]]]].
  - assert (Hu : In u (select [kw_id k] (rows s))) by (rewrite Hsel; now left).
    apply filter_In in Hu as [Hu Hm]. rewrite matches_id in Hm. apply Z.eqb_eq in Hm.
    destruct (Hcols u) as (Hid & Hcs & Hcr). rewrite Hm in Hid.
    unfold tidy, tokens_drawn. rewrite Hrows, Hent. split; [|split].
    + intros r Hr. split.
      * apply (store_drawn session_id b (entropy s) k u
                 (fold_left setattr kw u) (rows s)); auto.
        intros r0 Hr0. now apply Hl.
      * apply (store_drawn reset_token b (entropy s) k u
                 (fold_left setattr kw u) (rows s)); auto.
        intros r0 Hr0. now apply Hl.
    + apply (store_distinct session_id b (entropy s) k u); auto.
      intros r0 Hr0. now apply Hl.
    + apply (store_distinct reset_token b (entropy s) k u); auto.
      intros r0 Hr0. now apply Hl.
  - unfold tidy, tokens_drawn. rewrite Hrows, Hent. split; [|now split].
    intros r Hr. destruct (Hl r Hr) as [H1 H2].
    split; [exact (drawn_mono _ _ _ Hb H1)|exact (drawn_mono _ _ _ Hb H2)].
Qed.


Lemma keeps_tidy_same_table {A} n (m : M A) :
  (forall s, rows (snd (m s)) = rows s /\ (entropy s <= entropy (snd (m s)))%nat) ->
  keeps_tidy uuid4 n m.
Proof.
  intros H s Hn (Htok & Hds & Hdr). destruct (H s) as [Hrows Hent].
  split; [lia|]. unfold tidy, tokens_drawn. rewrite Hrows. split; [|now split].
  intros r Hr. destruct (Htok r Hr) as [H1 H2].
  split; [exact (drawn_mono _ _ _ Hent H1)|exact (drawn_mono _ _ _ Hent H2)].
Qed.

Lemma keeps_tidy_ret {A} n (a : A) : keeps_tidy uuid4 n (ret a).
Proof. apply keeps_tidy_same_table. intros s. simpl. split; [reflexivity|lia]. Qed.

Lemma keeps_tidy_raise {A} n (e : exn) : keeps_tidy uuid4 n (@raise A e).
Proof. apply keeps_tidy_same_table. intros s. simpl. split; [reflexivity|lia]. Qed.

Lemma keeps_tidy_draw {A} n (gen : nat -> A) : keeps_tidy uuid4 n (draw gen).
Proof. apply keeps_tidy_same_table. intros s. simpl. split; [reflexivity|lia]. Qed.

Lemma keeps_tidy_find_user_by n kw : keeps_tidy uuid4 n (find_user_by kw).
Proof.
  apply keeps_tidy_same_table. intros s. split; [apply find_user_by_cases|].
  rewrite find_user_by_entropy. lia.
Qed.

Lemma keeps_tidy_bind {A B} n (m : M A) (k : A -> M B) :
  keeps_tidy uuid4 n m -> (forall a, keeps_tidy uuid4 n (k a)) ->
  keeps_tidy uuid4 n (bind m k).
Proof.
  intros Hm Hk s Hn Hs. unfold bind. specialize (Hm s Hn Hs).
  destruct (m s) as [[a|e] s']; cbn [fst snd] in *; [|exact Hm].
  destruct Hm as [Hn' Hs']. exact (Hk a s' Hn' Hs').
Qed.

Lemma keeps_tidy_try_except {A} n (body : M A) handlers :
  keeps_tidy uuid4 n body -> Forall (fun h => keeps_tidy uuid4 n (snd h)) handlers ->
  keeps_tidy uuid4 n (try_except body handlers).
Proof.
  intros Hb Hh s Hn Hs. unfold try_except. specialize (Hb s Hn Hs).
  destruct (body s) as [[a|e] s']; cbn [fst snd] in *; [exact Hb|].
  destruct (find _ handlers) as [h|] eqn:E; [|exact Hb].
  apply find_some in E as [E _]. rewrite Forall_forall in Hh.
  destruct Hb as [Hn' Hs']. exact (Hh h E s' Hn' Hs').
Qed.

(** [update_user] with keys that keep or clear the tokens. *)
Lemma keeps_tidy_update_user n k kw :
  forallb hasattr kw = true ->
  (forall u, id (fold_left setattr kw u) = id u
             /\ (session_id (fold_left setattr kw u) = session_id u
                 \/ session_id (fold_left setattr kw u) = None)
             /\ (reset_token (fold_left setattr kw u) = reset_token u
                 \/ reset_token (fold_left setattr kw u) = None)) ->
  keeps_tidy uuid4 n (update_user k kw).
Proof.
  intros Hkw Hcols s Hn (Htok & Hds & Hdr).
  split; [destruct (update_user_cases k kw s Hkw) as [-> _]; exact Hn|].
  apply (update_user_tidy k kw s (entropy s)); auto.
  intros u. destruct (Hcols u) as (Hid & [Hs|Hs] & [Hr|Hr]);
    repeat split; unfold column_ok; auto.
Qed.

(** A token is drawn and written to one token column of a record. *)
Lemma keeps_tidy_new_token {A} n k (kwf : string -> kwargs) (g : string -> A) :
  (forall t, forallb hasattr (kwf t) = true) ->
  (forall t u, id (fold_left setattr (kwf t) u) = id u
               /\ (session_id (fold_left setattr (kwf t) u) = session_id u
                   \/ session_id (fold_left setattr (kwf t) u) = Some t)
               /\ (reset_token (fold_left setattr (kwf t) u) = reset_token u
                   \/ reset_token (fold_left setattr (kwf t) u) = Some t)) ->
  keeps_tidy uuid4 n
    (t <- draw uuid4 ;; update_user k (kwf t) ;;; ret (g t)).
Proof.
  intros Hkw Hcols s Hn (Htok & Hds & Hdr).
  set (t := uuid4 (entropy s)).
  set (s1 := mkState (rows s) (journal s) (S (entropy s))).
  assert (Hrun : (t0 <- draw uuid4 ;; update_user k (kwf t0) ;;; ret (g t0)) s
                 = (update_user k (kwf t) ;;; ret (g t)) s1) by reflexivity.
  assert (Hsnd : snd ((update_user k (kwf t) ;;; ret (g t)) s1)
                 = snd (update_user k (kwf t) s1)).
  { unfold bind. now destruct (update_user k (kwf t) s1) as [[a|e] s2]. }
  rewrite Hrun, Hsnd. split.
  - destruct (update_user_cases k (kwf t) s1 (Hkw t)) as [-> _]. simpl. lia.
  - apply (update_user_tidy k (kwf t) s1 (entropy s)); auto.
    + simpl. lia.
    + intros u. destruct (Hcols t u) as (Hid & Hs & Hr).
      assert (Hnew : exists i, Some t = Some (uuid4 i) /\ (entropy s <= i < entropy s1)%nat)
        by (exists (entropy s); simpl; split; [reflexivity|lia]).
      repeat split; unfold column_ok; [exact Hid| |].
      * destruct Hs as [->| ->]; auto.
      * destruct Hr as [->| ->]; auto.
Qed.

Lemma keeps_tidy_add_user n e h : keeps_tidy uuid4 n (add_user e h).
Proof.
  intros s Hn (Htok & Hds & Hdr). split; [exact Hn|].
  set (u := mkUser (next_id (rows s)) e h None None).
  assert (Hin : forall r, In r (rows s ++ [u]) -> In r (rows s) \/ r = u).
  { intros r Hr. apply in_app_or in Hr as [Hr|[<-|[]]]; auto. }
  unfold tidy, tokens_drawn. cbn [add_user]. change (rows (snd (add_user e h s)))
    with (rows s ++ [u]). change (entropy (snd (add_user e h s))) with (entropy s).
  split; [|split].
  - intros r Hr. destruct (Hin r Hr) as [Hr'| ->]; [now apply Htok|].
    split; apply drawn_None.
  - intros r1 r2 t H1 H2 Ht1 Ht2.
    destruct (Hin r1 H1) as [H1'| ->]; [|discriminate].
    destruct (Hin r2 H2) as [H2'| ->]; [|discriminate].
    exact (Hds r1 r2 t H1' H2' Ht1 Ht2).
  - intros r1 r2 t H1 H2 Ht1 Ht2.
    destruct (Hin r1 H1) as [H1'| ->]; [|discriminate].
    destruct (Hin r2 H2) as [H2'| ->]; [|discriminate].
    exact (Hdr r1 r2 t H1' H2' Ht1 Ht2).
Qed.

(** X17: with a generator that never repeats a value, in every state of
    the service no session id is held by two users and no reset token is
    held by two users. *)
Theorem reachable_tokens_distinct (s : state) :
  reachable hashpw checkpw gensalt uuid4 s ->
  distinct_tokens session_id (rows s) /\ distinct_tokens reset_token (rows s).
Proof.
  intros Hreach. cut (tidy uuid4 s); [intros (_ & H1 & H2); now split|].
  assert (Hstep : forall A (m : M A) s0,
             keeps_tidy uuid4 0 m -> tidy uuid4 s0 -> tidy uuid4 (snd (m s0))).
  { intros A m s0 Hm Hs0. apply Hm; [lia|exact Hs0]. }
  induction Hreach as [seed| s e p _ IH | s e p _ IH | s e _ IH | s sid _ IH
                      | s uid _ IH | s e _ IH | s t p _ IH].
  - split; [|split]; [intros r []|intros r1 r2 t []|intros r1 r2 t []].
  - apply Hstep; [|exact IH]. apply keeps_tidy_try_except.
    + apply keeps_tidy_bind; [apply keeps_tidy_find_user_by|].
      intros _. apply keeps_tidy_raise.
    + split_Forall. apply keeps_tidy_bind; [|intros h; apply keeps_tidy_add_user].
      apply keeps_tidy_bind; [apply keeps_tidy_draw|]. intros salt. apply keeps_tidy_ret.
  - apply Hstep; [|exact IH]. apply keeps_tidy_try_except.
    + apply keeps_tidy_bind; [apply keeps_tidy_find_user_by|].
      intros u. apply keeps_tidy_ret.
    + split_Forall. apply keeps_tidy_ret.
  - apply Hstep; [|exact IH].
    apply keeps_tidy_bind; [apply keeps_tidy_find_user_by|]. intros u. unfold truthy.
    apply (keeps_tidy_new_token 0 (id u) (fun t => [kw_session_id (Some t)]) Some).
    + reflexivity.
    + intros t0 u0. cbn. auto.
  - apply Hstep; [|exact IH]. destruct sid as [t|]; [|apply keeps_tidy_ret].
    apply keeps_tidy_try_except.
    + apply keeps_tidy_bind; [apply keeps_tidy_find_user_by|].
      intros u. apply keeps_tidy_ret.
    + split_Forall. apply keeps_tidy_ret.
  - apply Hstep; [|exact IH]. apply keeps_tidy_update_user; [reflexivity|].
    intros u. cbn. auto.
  - apply Hstep; [|exact IH]. apply keeps_tidy_try_except.
    + apply keeps_tidy_bind; [apply keeps_tidy_find_user_by|]. intros u.
      apply (keeps_tidy_new_token 0 (id u) (fun t => [kw_reset_token (Some t)])
               (fun t => t)).
      * reflexivity.
      * intros t0 u0. cbn. auto.
    + split_Forall. apply keeps_tidy_raise.
  - apply Hstep; [|exact IH]. apply keeps_tidy_try_except.
    + apply keeps_tidy_bind; [apply keeps_tidy_find_user_by|]. intros u.
      apply keeps_tidy_bind.
      * apply keeps_tidy_bind; [apply keeps_tidy_draw|]. intros salt.
        apply keeps_tidy_ret.
      * intros h. apply keeps_tidy_update_user; [reflexivity|].
        intros u0. cbn. auto.
    + split_Forall. apply keeps_tidy_raise.
Qed.

End Distinct.


(** ** Columns an operation does not write *)

Section Columns.

Context {K : Type} (f : User -> K).

Lemma keeps_same_table {A} (m : M A) :
  (forall s, rows (snd (m s)) = rows s) -> keeps f m.
Proof. intros H s. now rewrite H. Qed.

Lemma keeps_ret {A} (a : A) : keeps f (ret a).
Proof. now apply keeps_same_table. Qed.

Lemma keeps_raise {A} (e : exn) : keeps f (@raise A e).
Proof. now apply keeps_same_table. Qed.

Lemma keeps_draw {A} (gen : nat -> A) : keeps f (draw gen).
Proof. now apply keeps_same_table. Qed.

Lemma keeps_find_user_by kw : keeps f (find_user_by kw).
Proof. apply keeps_same_table. intros s. apply find_user_by_cases. Qed.

Lemma keeps_bind {A B} (m : M A) (k : A -> M B) :
  keeps f m -> (forall a, keeps f (k a)) -> keeps f (bind m k).
Proof.
  intros Hm Hk s. unfold bind. specialize (Hm s).
  destruct (m s) as [[a|e] s']; cbn [fst snd] in *; [|exact Hm].
  now rewrite Hk.
Qed.

Lemma keeps_try_except {A} (body : M A) handlers :
  keeps f body -> Forall (fun h => keeps f (snd h)) handlers ->
  keeps f (try_except body handlers).
Proof.
  intros Hb Hh s. unfold try_except. specialize (Hb s).
  destruct (body s) as [[a|e] s']; cbn [fst snd] in *; [exact Hb|].
  destruct (find _ handlers) as [h|] eqn:E; [|exact Hb].
  apply find_some in E as [E _]. rewrite Forall_forall in Hh.
  now rewrite (Hh h E s').
Qed.

Lemma setattr_loop_untouched u kw :
  Forall (untouched f) kw -> f (snd (setattr_loop u kw)) = f u.
Proof.
  revert u. induction kw as [|k kw IH]; intros u H; cbn [setattr_loop]; [reflexivity|].
  inversion H as [|k' kw' Hk Hkw]; subst.
  destruct (negb (hasattr k)); [reflexivity|]. now rewrite IH, Hk.
Qed.

Lemma keeps_update_user k kw : Forall (untouched f) kw -> keeps f (update_user k kw).
Proof.
  intros Hkw s. unfold update_user, bind.
  destruct (find_user_by_cases [kw_id k] s) as [Hrows Hcase].
  destruct (find_user_by [kw_id k] s) as [[u|e] s'] eqn:E; cbn [fst snd] in *;
    [|now rewrite Hrows].
  unfold get_rows. pose proof (setattr_loop_untouched u kw Hkw) as Hu'.
  destruct (setattr_loop u kw) as [r u']. cbn [snd] in Hu'.
  assert (Hgoal : map f (store k u' (rows s')) = map f (rows s)).
  { rewrite Hrows. apply store_map. intros r0 Hr0 Hk.
    assert (Hx : In r0 (select [kw_id k] (rows s))).
    { apply filter_In. split; [exact Hr0|]. rewrite matches_id. now apply Z.eqb_eq. }
    rewrite Hcase in Hx. destruct Hx as [<-|[]]. exact Hu'. }
  unfold set_rows. cbn [fst snd].
  destruct r as [[]|e]; cbn; exact Hgoal.
Qed.

End Columns.

(** X18: what each operation leaves alone, in any state and whatever it
    returns or raises: [create_session] and [destroy_session] write only
    the session id, [get_reset_password_token] only the reset token, and
    [update_password] only the hash and the reset token. *)
Theorem operations_keep_other_columns (s : state) :
  let creds := fun r => (id r, email r, hashed_password r) in
  (forall e, map (fun r => (creds r, reset_token r))
                 (rows (snd (create_session uuid4 e s)))
             = map (fun r => (creds r, reset_token r)) (rows s))
  /\ (forall k, map (fun r => (creds r, reset_token r)) (rows (snd (destroy_session k s)))
                = map (fun r => (creds r, reset_token r)) (rows s))
  /\ (forall e, map (fun r => (creds r, session_id r))
                    (rows (snd (get_reset_password_token uuid4 e s)))
                = map (fun r => (creds r, session_id r)) (rows s))
  /\ (forall t p, map (fun r => (id r, email r, session_id r))
                      (rows (snd (update_password hashpw gensalt t p s)))
                  = map (fun r => (id r, email r, session_id r)) (rows s)).
Proof.
  intros creds. split; [|split; [|split]].
  - intros e. apply (keeps_bind _ _ _ (keeps_find_user_by _ _)). intros u.
    unfold truthy. apply keeps_bind; [apply keeps_draw|]. intros t.
    apply keeps_bind; [|intros _; apply keeps_ret].
    apply keeps_update_user. split_Forall. now intros r.
  - intros k. apply keeps_update_user. split_Forall. now intros r.
  - intros e. apply keeps_try_except; [|split_Forall; apply keeps_raise].
    apply keeps_bind; [apply keeps_find_user_by|]. intros u.
    apply keeps_bind; [apply keeps_draw|]. intros t.
    apply keeps_bind; [|intros _; apply keeps_ret].
    apply keeps_update_user. split_Forall. now intros r.
  - intros t p. apply keeps_try_except; [|split_Forall; apply keeps_raise].
    apply keeps_bind; [apply keeps_find_user_by|]. intros u.
    apply keeps_bind; [apply keeps_bind; [apply keeps_draw|intros salt; apply keeps_ret]|].
    intros h. apply keeps_update_user.
    split_Forall; now intros r.
Qed.


(** X19: a second [get_reset_password_token] for the same user replaces
    the reset token: [update_password] with the first token then fails
    with "Invalid reset token", and with the second it succeeds. *)
Theorem get_reset_password_token_replaces_token (u : User) (p : string) (s : state) :
  primary_key (rows s) -> unique_email (rows s) -> In u (rows s) ->
  let t1 := uuid4 (entropy s) in
  let t2 := uuid4 (S (entropy s)) in
  reset_fresh t1 (rows s) -> reset_fresh t2 (rows s) -> t1 <> t2 ->
  let s1 := snd (get_reset_password_token uuid4 (email u) s) in
  let s2 := snd (get_reset_password_token uuid4 (email u) s1) in
  fst (get_reset_password_token uuid4 (email u) s1) = Return t2
  /\ fst (update_password hashpw gensalt t1 p s2) = Raise (ValueError "Invalid reset token")
  /\ fst (update_password hashpw gensalt t2 p s2) = Return tt.
Proof.
  intros Hpk Hue Hin t1 t2 Hf1 Hf2 Hneq s1 s2.
  set (u1 := setattr u (kw_reset_token (Some t1))).
  set (u2 := mkUser (id u) (email u) (hashed_password u) (session_id u) (Some t2)).
  pose proof (get_reset_password_token_found u s Hpk Hue Hin) as E1. cbv zeta in E1.
  assert (Hrows1 : rows s1 = store (id u) u1 (rows s)) by (subst s1; now rewrite E1).
  assert (Hent1 : entropy s1 = S (entropy s)) by (subst s1; now rewrite E1).
  assert (Hpk1 : primary_key (rows s1)) by (rewrite Hrows1; now apply store_primary_key).
  assert (Hue1 : unique_email (rows s1)) by (rewrite Hrows1; now apply store_unique_email).
  assert (Hin1 : In u1 (rows s1))
    by (rewrite Hrows1; now apply (store_in (id u) u1 (rows s) u)).
  pose proof (get_reset_password_token_found u1 s1 Hpk1 Hue1 Hin1) as E2. cbv zeta in E2.
  rewrite Hent1 in E2. change (email u1) with (email u) in E2.
  assert (Hrows2 : rows s2 = store (id u) u2 (rows s)).
  { subst s2. rewrite E2. cbn [snd rows]. rewrite Hrows1. now apply store_store. }
  assert (Hpk2 : primary_key (rows s2)) by (rewrite Hrows2; now apply store_primary_key).
  split; [now rewrite E2|split].
  - rewrite update_password_missing; [reflexivity|].
    rewrite Hrows2. apply store_reset_fresh; [exact Hf1|].
    intros [= H]. now apply Hneq.
  - rewrite (update_password_found u2 t2 p s2); auto.
    + rewrite Hrows2. now apply (store_in (id u) u2 (rows s) u).
    + rewrite Hrows2. now apply store_reset_holder.
Qed.

End Properties.

(** ** The model at concrete inputs *)

Lemma bytes_eqb_refl l : bytes_eqb l l = true.
Proof.
  induction l as [|b l IH]; simpl; [reflexivity|].
  rewrite IH, andb_true_r. now apply Byte.byte_dec_lb.
Qed.

Lemma demo_bcrypt_accepts pw n :
  demo_checkpw pw (demo_hashpw pw (demo_gensalt n)) = true.
Proof.
  unfold demo_checkpw, demo_hashpw, demo_gensalt.
  destruct (Byte.of_nat _); cbn [firstn app]; apply bytes_eqb_refl.
Qed.

Lemma demo_bcrypt_rejects n :
  demo_checkpw (encode "pw") (demo_hashpw (encode "new") (demo_gensalt n)) = false.
Proof.
  unfold demo_checkpw, demo_hashpw, demo_gensalt.
  destruct (Byte.of_nat _) as [b|]; cbn [firstn app encode list_byte_of_string];
    cbn - [Byte.eqb]; rewrite ?bytes_eqb_refl, ?(Byte.byte_dec_lb eq_refl); reflexivity.
Qed.

Lemma demo_registered_rows : rows demo_registered = [demo_user].
Proof. reflexivity. Qed.

Lemma demo_pending_rows : rows demo_pending = [demo_pending_user].
Proof. reflexivity. Qed.

Lemma single_primary_key u : primary_key [u].
Proof. repeat constructor. simpl. tauto. Qed.

Lemma single_unique_email u : unique_email [u].
Proof. repeat constructor. simpl. tauto. Qed.

(** Registering a second address, and the same address again. *)
Lemma register_user_spec_witness :
  fst (register_user demo_hashpw demo_gensalt "bob@x.com" "other" demo_registered)
  = Raise (ValueError "User bob@x.com already exists")
  /\ rows (snd (register_user demo_hashpw demo_gensalt "bob@x.com" "other" demo_registered))
     = rows demo_registered
  /\ fst (register_user demo_hashpw demo_gensalt "eve@x.com" "pw" demo_registered)
     = Return (mkUser 2 "eve@x.com" (demo_hashpw (encode "pw") (demo_gensalt 1)) None None).
Proof.
  assert (Hdup := proj1 (register_user_spec demo_hashpw demo_gensalt
                           "bob@x.com" "other" demo_registered)
                        demo_user (single_unique_email demo_user)
                        (or_introl eq_refl) eq_refl).
  assert (Hnew := proj2 (register_user_spec demo_hashpw demo_gensalt
                           "eve@x.com" "pw" demo_registered)).
  split; [|split].
  - now rewrite Hdup.
  - now rewrite Hdup.
  - rewrite Hnew; [reflexivity|]. intros r [<-|[]]. discriminate.
Defined.

Lemma valid_login_spec_witness :
  fst (valid_login demo_checkpw "missing@x.com" "pw" demo_registered) = Return false
  /\ fst (valid_login demo_checkpw "bob@x.com" "pw" demo_registered) = Return true
  /\ fst (valid_login demo_checkpw "bob@x.com" "guess" demo_registered) = Return false.
Proof.
  split; [|split].
  - rewrite (proj1 (valid_login_spec demo_checkpw "missing@x.com" "pw" demo_registered));
      [reflexivity|]. intros r [<-|[]]. discriminate.
  - now rewrite (proj2 (valid_login_spec demo_checkpw "bob@x.com" "pw" demo_registered)
                   demo_user (single_unique_email demo_user) (or_introl eq_refl) eq_refl).
  - now rewrite (proj2 (valid_login_spec demo_checkpw "bob@x.com" "guess" demo_registered)
                   demo_user (single_unique_email demo_user) (or_introl eq_refl) eq_refl).
Defined.

Lemma create_session_unknown_email_witness :
  fst (create_session demo_uuid4 "missing@x.com" (DB_init 0))
  = Raise (NoResultFound "No user found for the given parameters.").
Proof.
  apply (create_session_unknown_email_raises demo_uuid4 "missing@x.com" (DB_init 0)).
  intros r [].
Defined.

Lemma get_reset_password_token_spec_witness :
  fst (get_reset_password_token demo_uuid4 "missing@x.com" demo_registered)
  = Raise (ValueError "User not found")
  /\ fst (get_reset_password_token demo_uuid4 "bob@x.com" demo_registered) = Return "uuid-1"
  /\ rows (snd (get_reset_password_token demo_uuid4 "bob@x.com" demo_registered))
     = [demo_pending_user].
Proof.
  assert (Hmiss := proj1 (get_reset_password_token_spec demo_uuid4
                            "missing@x.com" demo_registered)).
  destruct (proj2 (get_reset_password_token_spec demo_uuid4 "bob@x.com" demo_registered)
              demo_user (single_primary_key demo_user) (single_unique_email demo_user)
              (or_introl eq_refl) eq_refl) as [Hfound _].
  split; [|split].
  - rewrite Hmiss; [reflexivity|]. intros r [<-|[]]. discriminate.
  - now rewrite Hfound.
  - now rewrite Hfound.
Defined.

Lemma update_password_spec_witness :
  fst (update_password demo_hashpw demo_gensalt "uuid-9" "new" demo_pending)
  = Raise (ValueError "Invalid reset token")
  /\ update_password demo_hashpw demo_gensalt "uuid-1" "new" demo_pending
     = (Return tt,
        let rows' := [mkUser 1 "bob@x.com" (demo_hashpw (encode "new") (demo_gensalt 2))
                             None None] in
        mkState rows'
                (journal demo_pending ++ [Select [kw_reset_token (Some "uuid-1")]]
                   ++ [Select [kw_id 1]] ++ [Commit rows'])
                3%nat).
Proof.
  assert (Hmiss := proj1 (update_password_spec demo_hashpw demo_gensalt
                            "uuid-9" "new" demo_pending)).
  destruct (proj2 (update_password_spec demo_hashpw demo_gensalt "uuid-1" "new" demo_pending)
              demo_pending_user (single_primary_key demo_pending_user)
              (or_introl eq_refl) eq_refl) as [Hfound _].
  { intros r [<-|[]] _. reflexivity. }
  split.
  - rewrite Hmiss; [reflexivity|]. intros r [<-|[]]. discriminate.
  - exact Hfound.
Defined.

Lemma session_lifecycle_witness :
  fst (destroy_session 7 demo_registered)
  = Raise (NoResultFound "No user found for the given parameters.")
  /\ (let s1 := snd (create_session demo_uuid4 "bob@x.com" demo_registered) in
      let s2 := snd (get_user_from_session_id (Some "uuid-1") s1) in
      let s3 := snd (destroy_session 1 s2) in
      fst (create_session demo_uuid4 "bob@x.com" demo_registered) = Return (Some "uuid-1")
      /\ fst (get_user_from_session_id (Some "uuid-1") s1)
         = Return (Some (mkUser 1 "bob@x.com" (demo_hashpw (encode "pw") (demo_gensalt 0))
                                (Some "uuid-1") None))
      /\ fst (destroy_session 1 s2) = Return tt
      /\ fst (get_user_from_session_id (Some "uuid-1") s3) = Return None).
Proof.
  split.
  - apply (proj1 (session_lifecycle demo_uuid4 demo_registered) 7).
    + unfold int64. lia.
    + intros r [<-|[]]. discriminate.
  - apply (proj2 (session_lifecycle demo_uuid4 demo_registered) demo_user
             (single_primary_key demo_user) (single_unique_email demo_user)
             (or_introl eq_refl)).
    intros r [<-|[]]. discriminate.
Defined.

Lemma reset_flow_holds_witness :
  reset_flow demo_hashpw demo_checkpw demo_gensalt demo_uuid4
             demo_registered "bob@x.com" "pw" "new" "third".
Proof.
  apply (reset_flow_holds demo_hashpw demo_checkpw demo_gensalt demo_uuid4
           demo_user demo_registered "pw" "new" "third"
           (single_primary_key demo_user) (single_unique_email demo_user)
           (or_introl eq_refl)).
  - intros r [<-|[]]. discriminate.
  - exact demo_bcrypt_accepts.
  - exact demo_bcrypt_rejects.
Defined.

(** C3, as stated: when the new password equals the current one, the
    old password still logs in after the update. *)
Lemma reset_flow_same_password :
  ~ reset_flow demo_hashpw demo_checkpw demo_gensalt demo_uuid4
               demo_registered "bob@x.com" "pw" "pw" "third".
Proof.
  unfold reset_flow. intros [t H]. cbv zeta in H.
  destruct H as (H1 & _ & _ & H4 & _).
  vm_compute in H1. injection H1 as <-.
  vm_compute in H4. discriminate H4.
Qed.

(** C6, as stated: for the empty string the query is sent. *)
Lemma empty_session_id_is_looked_up :
  get_user_from_session_id (Some "") (DB_init 0) <> (Return None, DB_init 0).
Proof. vm_compute. discriminate. Qed.

(** And when a record holds the empty string, that record comes back. *)
Example empty_session_id_can_resolve :
  fst (get_user_from_session_id (Some "") demo_blank_session)
  = Return (Some (mkUser 1 "bob@x.com" [] (Some "") None)).
Proof. reflexivity. Qed.

Lemma get_user_from_session_id_spec_witness :
  get_user_from_session_id None demo_registered = (Return None, demo_registered)
  /\ get_user_from_session_id (Some "") demo_registered
     = (Return None, logged [Select [kw_session_id (Some "")]] demo_registered)
  /\ get_user_from_session_id (Some "uuid-5") demo_registered
     = (Return None, logged [Select [kw_session_id (Some "uuid-5")]] demo_registered).
Proof.
  destruct (get_user_from_session_id_spec demo_registered) as [Hnone Hsome].
  split; [exact Hnone|split].
  - apply Hsome. intros r [<-|[]]. discriminate.
  - apply Hsome. intros r [<-|[]]. discriminate.
Defined.

Lemma duplicates_raise_witness :
  let err := InvalidRequestError "Invalid query arguments provided." in
  fst (find_user_by [kw_email "bob@x.com"] demo_duplicates) = Raise err
  /\ fst (valid_login demo_checkpw "bob@x.com" "pw" demo_duplicates) = Raise err
  /\ fst (create_session demo_uuid4 "bob@x.com" demo_duplicates) = Raise err
  /\ fst (get_user_from_session_id (Some "s") demo_duplicates) = Raise err.
Proof.
  intros err.
  destruct (duplicates_raise demo_checkpw demo_uuid4 [kw_email "bob@x.com"] demo_duplicates)
    as (Hfind & _ & Hlogin & Hcreate & _); [apply le_n|].
  destruct (duplicates_raise demo_checkpw demo_uuid4 [kw_session_id (Some "s")]
              demo_duplicates)
    as (_ & _ & _ & _ & Hget); [apply le_n|].
  split; [exact Hfind|split; [|split]].
  - now apply Hlogin.
  - now apply Hcreate.
  - now apply Hget.
Defined.

(** The concrete states used above are states of the service. *)
Example demo_pending_reachable :
  reachable demo_hashpw demo_checkpw demo_gensalt demo_uuid4 demo_pending.
Proof. apply reach_get_reset_password_token, reach_register_user, reach_init. Qed.

(** ** The further properties at concrete inputs *)

Lemma demo_uuid4_inj i j : demo_uuid4 i = demo_uuid4 j -> i = j.
Proof.
  unfold demo_uuid4. intros H. apply Unsigned.to_uint_inj.
  assert (Hs : NilEmpty.string_of_uint (Nat.to_uint i)
               = NilEmpty.string_of_uint (Nat.to_uint j)).
  { cbn [append] in H. now injection H. }
  pose proof (NilEmpty.usu (Nat.to_uint i)) as Hi. rewrite Hs, NilEmpty.usu in Hi.
  now injection Hi.
Qed.

Lemma demo_active_rows : rows demo_active = [demo_active_user].
Proof. reflexivity. Qed.

Example demo_active_reachable :
  reachable demo_hashpw demo_checkpw demo_gensalt demo_uuid4 demo_active.
Proof.
  apply reach_create_session, reach_get_reset_password_token,
    reach_register_user, reach_init.
Qed.


Lemma find_user_by_sound_witness :
  In demo_user (rows demo_registered)
  /\ (forall k, In k [kw_email "bob@x.com"; kw_id 1] -> holds demo_user k = true)
  /\ (forall r, In r (rows demo_registered) ->
        matches [kw_email "bob@x.com"; kw_id 1] r = true -> r = demo_user)
  /\ rows (snd (find_user_by [kw_email "bob@x.com"; kw_id 1] demo_registered))
     = rows demo_registered
  /\ entropy (snd (find_user_by [kw_email "bob@x.com"; kw_id 1] demo_registered))
     = entropy demo_registered.
Proof.
  apply (find_user_by_sound [kw_email "bob@x.com"; kw_id 1] demo_registered demo_user).
  reflexivity.
Defined.

Lemma add_user_then_find_by_id_witness :
  let u := mkUser 2 "eve@x.com" [] None None in
  let s' := snd (add_user "eve@x.com" [] demo_registered) in
  fst (add_user "eve@x.com" [] demo_registered) = Return u
  /\ rows s' = rows demo_registered ++ [u]
  /\ (forall r, In r (rows demo_registered) -> id r < id u)
  /\ fst (find_user_by [kw_id (id u)] s') = Return u
  /\ (forall r, In r (rows demo_registered) ->
        fst (find_user_by [kw_id (id r)] s') = Return r).
Proof.
  apply (add_user_then_find_by_id "eve@x.com" [] demo_registered).
  - apply single_primary_key.
  - intros r [<-|[]]. change (0 <= 1 < 2 ^ 63 - 1). lia.
Defined.

Lemma add_user_accepts_duplicate_email_witness :
  let s' := snd (add_user "bob@x.com" [] demo_registered) in
  fst (add_user "bob@x.com" [] demo_registered)
  = Return (mkUser 2 "bob@x.com" [] None None)
  /\ fst (find_user_by [kw_email "bob@x.com"] s')
     = Raise (InvalidRequestError "Invalid query arguments provided.").
Proof.
  apply (add_user_accepts_duplicate_email "bob@x.com" [] demo_registered demo_user).
  - intros r [<-|[]]. change (0 <= 1 < 2 ^ 63 - 1). lia.
  - now left.
  - reflexivity.
Defined.

Lemma update_user_invalid_attribute_witness :
  update_user 1 [kw_session_id (Some "x"); kw_other "admin"; kw_reset_token (Some "y")]
              demo_registered
  = (Raise (ValueError "'admin' is not a valid attribute of User."),
     mkState [mkUser 1 "bob@x.com" (demo_hashpw (encode "pw") (demo_gensalt 0))
                     (Some "x") None]
             (journal demo_registered ++ [Select [kw_id 1]])
             1%nat).
Proof.
  apply (update_user_invalid_attribute demo_user [kw_session_id (Some "x")]
           [kw_reset_token (Some "y")] "admin" demo_registered).
  - apply single_primary_key.
  - now left.
  - reflexivity.
  - reflexivity.
Defined.

Lemma update_user_touches_one_record_witness :
  let s' := snd (update_user 1 [kw_session_id (Some "x")] demo_duplicates) in
  List.length (rows s') = List.length (rows demo_duplicates)
  /\ (forall r, In r (rows demo_duplicates) -> id r <> 1 -> In r (rows s'))
  /\ entropy s' = entropy demo_duplicates.
Proof.
  apply (update_user_touches_one_record 1 [kw_session_id (Some "x")] demo_duplicates).
  reflexivity.
Defined.

Lemma demo_registered_no_eve :
  forall r, In r (rows demo_registered) -> email r <> "eve@x.com".
Proof. intros r [<-|[]]. discriminate. Qed.

Lemma register_then_login_witness :
  let s' := snd (register_user demo_hashpw demo_gensalt "eve@x.com" "secret"
                               demo_registered) in
  fst (valid_login demo_checkpw "eve@x.com" "secret" s') = Return true
  /\ (forall q, fst (valid_login demo_checkpw "eve@x.com" q s')
                = Return (demo_checkpw (encode q)
                            (demo_hashpw (encode "secret") (demo_gensalt 1)))).
Proof.
  apply (register_then_login demo_hashpw demo_checkpw demo_gensalt
           "eve@x.com" "secret" demo_registered).
  - apply single_unique_email.
  - exact demo_registered_no_eve.
  - exact demo_bcrypt_accepts.
Defined.

Lemma register_user_twice_witness :
  let s' := snd (register_user demo_hashpw demo_gensalt "eve@x.com" "secret"
                               demo_registered) in
  fst (register_user demo_hashpw demo_gensalt "eve@x.com" "other" s')
  = Raise (ValueError "User eve@x.com already exists")
  /\ rows (snd (register_user demo_hashpw demo_gensalt "eve@x.com" "other" s')) = rows s'.
Proof.
  apply (register_user_twice demo_hashpw demo_gensalt
           "eve@x.com" "secret" "other" demo_registered).
  - apply single_unique_email.
  - exact demo_registered_no_eve.
Defined.

Lemma create_session_replaces_token_witness :
  let s1 := snd (create_session demo_uuid4 "bob@x.com" demo_registered) in
  let s2 := snd (create_session demo_uuid4 "bob@x.com" s1) in
  fst (create_session demo_uuid4 "bob@x.com" s1) = Return (Some "uuid-2")
  /\ fst (get_user_from_session_id (Some "uuid-1") s2) = Return None
  /\ fst (get_user_from_session_id (Some "uuid-2") s2)
     = Return (Some (mkUser 1 "bob@x.com" (demo_hashpw (encode "pw") (demo_gensalt 0))
                            (Some "uuid-2") None)).
Proof.
  apply (create_session_replaces_token demo_uuid4 demo_user demo_registered
           (single_primary_key demo_user) (single_unique_email demo_user)
           (or_introl eq_refl)).
  - intros r [<-|[]]. discriminate.
  - intros r [<-|[]]. discriminate.
  - discriminate.
Defined.

Lemma update_password_keeps_session_witness :
  fst (get_user_from_session_id (Some "uuid-2")
         (snd (update_password demo_hashpw demo_gensalt "uuid-1" "new" demo_active)))
  = Return (Some (mkUser 1 "bob@x.com" (demo_hashpw (encode "new") (demo_gensalt 3))
                         (Some "uuid-2") None)).
Proof.
  apply (update_password_keeps_session demo_hashpw demo_gensalt
           demo_active_user "uuid-1" "uuid-2" "new" demo_active
           (single_primary_key demo_active_user) (or_introl eq_refl) eq_refl).
  - intros r [<-|[]] _. reflexivity.
  - reflexivity.
  - intros r [<-|[]] _. reflexivity.
Defined.

Lemma destroy_session_twice_witness :
  let u0 := mkUser 1 "bob@x.com" (demo_hashpw (encode "pw") (demo_gensalt 0))
                   None (Some "uuid-1") in
  let s1 := snd (destroy_session 1 demo_active) in
  fst (destroy_session 1 demo_active) = Return tt
  /\ In u0 (rows s1)
  /\ fst (destroy_session 1 s1) = Return tt
  /\ rows (snd (destroy_session 1 s1)) = rows s1.
Proof.
  apply (destroy_session_twice demo_active_user demo_active
           (single_primary_key demo_active_user) (or_introl eq_refl)).
Defined.

Lemma raise_leaves_table_witness :
  rows (snd (register_user demo_hashpw demo_gensalt "bob@x.com" "other" demo_registered))
  = rows demo_registered
  /\ rows (snd (create_session demo_uuid4 "bob@x.com" demo_duplicates))
     = rows demo_duplicates
  /\ rows (snd (update_password demo_hashpw demo_gensalt "uuid-9" "new" demo_active))
     = rows demo_active.
Proof.
  split; [|split].
  - apply (proj1 (raise_leaves_table demo_hashpw demo_gensalt demo_uuid4 demo_registered
                    (ValueError "User bob@x.com already exists"))).
    reflexivity.
  - apply (proj1 (proj2 (raise_leaves_table demo_hashpw demo_gensalt demo_uuid4
                           demo_duplicates
                           (InvalidRequestError "Invalid query arguments provided.")))).
    reflexivity.
  - apply (proj2 (proj2 (proj2 (proj2
             (raise_leaves_table demo_hashpw demo_gensalt demo_uuid4 demo_active
                (ValueError "Invalid reset token")))))).
    reflexivity.
Defined.

Lemma get_user_from_session_id_never_raises_witness :
  fst (get_user_from_session_id (Some "uuid-2") demo_active) = Return None
  \/ exists u, fst (get_user_from_session_id (Some "uuid-2") demo_active)
               = Return (Some u)
               /\ In u (rows demo_active) /\ session_id u = Some "uuid-2".
Proof.
  apply (get_user_from_session_id_never_raises demo_active).
  - apply single_primary_key.
  - intros r1 r2 t [<-|[]] [<-|[]] _ _. reflexivity.
Defined.

Lemma reachable_table_shape_witness :
  map id (rows demo_active) = first_ids (List.length (rows demo_active))
  /\ unique_email (rows demo_active).
Proof.
  exact (reachable_table_shape demo_hashpw demo_checkpw demo_gensalt demo_uuid4
           demo_active demo_active_reachable).
Defined.

Lemma reachable_tokens_distinct_witness :
  distinct_tokens session_id (rows demo_active)
  /\ distinct_tokens reset_token (rows demo_active).
Proof.
  exact (reachable_tokens_distinct demo_hashpw demo_checkpw demo_gensalt demo_uuid4
           demo_uuid4_inj demo_active demo_active_reachable).
Defined.

Lemma get_reset_password_token_replaces_token_witness :
  let s1 := snd (get_reset_password_token demo_uuid4 "bob@x.com" demo_registered) in
  let s2 := snd (get_reset_password_token demo_uuid4 "bob@x.com" s1) in
  fst (get_reset_password_token demo_uuid4 "bob@x.com" s1) = Return "uuid-2"
  /\ fst (update_password demo_hashpw demo_gensalt "uuid-1" "new" s2)
     = Raise (ValueError "Invalid reset token")
  /\ fst (update_password demo_hashpw demo_gensalt "uuid-2" "new" s2) = Return tt.
Proof.
  apply (get_reset_password_token_replaces_token demo_hashpw demo_gensalt demo_uuid4
           demo_user "new" demo_registered
           (single_primary_key demo_user) (single_unique_email demo_user)
           (or_introl eq_refl)).
  - intros r [<-|[]]. discriminate.
  - intros r [<-|[]]. discriminate.
  - discriminate.
Defined.

Lemma reachable_fresh_witness :
  session_fresh (demo_uuid4 (entropy demo_active)) (rows demo_active)
  /\ reset_fresh (demo_uuid4 (entropy demo_active)) (rows demo_active).
Proof.
  exact (reachable_fresh demo_hashpw demo_checkpw demo_gensalt demo_uuid4
           demo_active demo_active_reachable demo_uuid4_inj).
Defined.
